(** * octo-ink: the entity/component simulation kernel

    A shallow embedding of the kernel of the game: the entity and
    component model ([src/entities/entity.py], [src/components/component.py]),
    the entity manager ([src/entities/entity_manager.py]), the spatial grid
    ([src/utils/spatial_grid.py]) and the object pools
    ([src/utils/object_pool.py]).

    Conventions of the embedding.
    - Python objects are mutable and shared, so entities and components live
      in a store and are named by their identity ([ref], [cref]); a method
      [obj.m(args)] becomes a function [Class_m args obj w] from store to
      store.
    - A Python [dict] is an insertion-ordered association list with unique
      keys ([dict_get], [dict_set], [dict_del]) where the code iterates over
      it, and a [gmap] where it is only looked up.
    - Python [float]s are idealised as exact rationals ([Q]); [int(...)] is
      truncation towards zero.
    - An exception is modelled by [None]. *)

From Stdlib Require Import ZArith QArith Qround.
From stdpp Require Import gmap strings list fin_maps.

#[local] Set Warnings "-clear-no-such-hyp".


(** ** Python containers *)

Section dict.
Context {K V : Type} `{EqDecision K}.

(** [d.get(k)] *)
Fixpoint dict_get (d : list (K * V)) (k : K) : option V :=
  match d with
  | [] => None
  | (k', v) :: d' => if decide (k = k') then Some v else dict_get d' k
  end.

(** [d[k] = v]: an existing key keeps its place, a new one goes last. *)
Fixpoint dict_set (d : list (K * V)) (k : K) (v : V) : list (K * V) :=
  match d with
  | [] => [(k, v)]
  | (k', v') :: d' =>
      if decide (k = k') then (k, v) :: d' else (k', v') :: dict_set d' k v
  end.

(** [del d[k]] / the removal half of [d.pop(k, None)] *)
Fixpoint dict_del (d : list (K * V)) (k : K) : list (K * V) :=
  match d with
  | [] => []
  | (k', v') :: d' =>
      if decide (k = k') then dict_del d' k else (k', v') :: dict_del d' k
  end.

(** [k in d] *)
Definition dict_has (d : list (K * V)) (k : K) : bool :=
  match dict_get d k with Some _ => true | None => false end.

(** [d.values()] *)
Definition dict_values (d : list (K * V)) : list V := map snd d.

Definition dict_keys (d : list (K * V)) : list K := map fst d.
End dict.

(** [l.remove(x)]: drops the first occurrence (the callers test [x in l]). *)
Fixpoint list_remove {A} `{EqDecision A} (x : A) (l : list A) : list A :=
  match l with
  | [] => []
  | y :: l' => if decide (x = y) then l' else y :: list_remove x l'
  end.

(** [x in l] *)
Definition list_has {A} `{EqDecision A} (x : A) (l : list A) : bool :=
  bool_decide (x ∈ l).

(** ** The store: entities and components *)

Definition ref := nat.   (* identity of an Entity object *)
Definition cref := nat.  (* identity of a Component object *)

(** The attributes the kernel reads from the concrete component classes. *)
Inductive ComponentData :=
| TransformData (position : Q * Q)
| CollisionData (width height : Q)
| PhysicsData (velocity : Q * Q)
| InkSlimeData (ink_color : string)
| OtherData.

(** [class Component] *)
Record Component := mkComponent {
  component_type : string;
  entity : option ref;        (* back-reference, [None] at construction *)
  enabled : bool;
  data : ComponentData
}.

(** [class Entity] *)
Record Entity := mkEntity {
  entity_id : string;
  name : string;
  components : list (string * cref);   (* Dict[str, Component] *)
  tags : list string;
  active : bool;
  marked_for_destruction : bool
}.

(** [class EntityManager] *)
Record EntityManager := mkEntityManager {
  entities : list (string * ref);            (* Dict[str, Entity] *)
  entities_to_add : list ref;
  entities_to_remove : list string;
  tag_index : gmap string (gset string)      (* tag -> set of entity ids *)
}.

Record World := mkWorld {
  ents : ref → Entity;
  comps : cref → Component;
  manager : EntityManager
}.

Definition upd {A} (f : nat → A) (r : nat) (x : A) : nat → A :=
  λ r', if decide (r' = r) then x else f r'.

Definition set_entity (w : World) (e : ref) (v : Entity) : World :=
  mkWorld (upd (ents w) e v) (comps w) (manager w).
Definition set_component (w : World) (c : cref) (v : Component) : World :=
  mkWorld (ents w) (upd (comps w) c v) (manager w).
Definition set_manager (w : World) (m : EntityManager) : World :=
  mkWorld (ents w) (comps w) m.

Definition with_components (e : Entity) (cs : list (string * cref)) : Entity :=
  mkEntity (entity_id e) (name e) cs (tags e) (active e) (marked_for_destruction e).
Definition with_tags (e : Entity) (ts : list string) : Entity :=
  mkEntity (entity_id e) (name e) (components e) ts (active e) (marked_for_destruction e).
Definition with_active (e : Entity) (b : bool) : Entity :=
  mkEntity (entity_id e) (name e) (components e) (tags e) b (marked_for_destruction e).
Definition with_marked (e : Entity) (b : bool) : Entity :=
  mkEntity (entity_id e) (name e) (components e) (tags e) (active e) b.
Definition with_entity (c : Component) (o : option ref) : Component :=
  mkComponent (component_type c) o (enabled c) (data c).
Definition with_enabled (c : Component) (b : bool) : Component :=
  mkComponent (component_type c) (entity c) b (data c).
Definition with_data (c : Component) (d : ComponentData) : Component :=
  mkComponent (component_type c) (entity c) (enabled c) d.

(** ** component.py *)

(** [Component.on_add] and [Component.on_remove]: [pass] in the base class;
    no component of the kernel overrides [on_remove]. *)
Definition Component_on_add (c : cref) (w : World) : World := w.
Definition Component_on_remove (c : cref) (w : World) : World := w.

Definition Component_set_enabled (b : bool) (c : cref) (w : World) : World :=
  set_component w c (with_enabled (comps w c) b).

(** ** entity.py *)

Definition Entity_get_component (ct : string) (self : ref) (w : World) : option cref :=
  dict_get (components (ents w self)) ct.

Definition Entity_has_component (ct : string) (self : ref) (w : World) : bool :=
  dict_has (components (ents w self)) ct.

Definition Entity_remove_component (ct : string) (self : ref) (w : World)
  : World * option cref :=
  match dict_get (components (ents w self)) ct with
  | Some c =>
      let w1 := set_entity w self
                  (with_components (ents w self) (dict_del (components (ents w self)) ct)) in
      let w2 := Component_on_remove c w1 in
      (set_component w2 c (with_entity (comps w2 c) None), Some c)
  | None => (w, None)
  end.

Definition Entity_add_component (c : cref) (self : ref) (w : World) : World :=
  let ct := component_type (comps w c) in
  let w1 := if Entity_has_component ct self w
            then fst (Entity_remove_component ct self w) else w in
  let w2 := set_entity w1 self
              (with_components (ents w1 self) (dict_set (components (ents w1 self)) ct c)) in
  let w3 := set_component w2 c (with_entity (comps w2 c) (Some self)) in
  Component_on_add c w3.

Definition Entity_has_tag (tag : string) (self : ref) (w : World) : bool :=
  list_has tag (tags (ents w self)).

Definition Entity_add_tag (tag : string) (self : ref) (w : World) : World :=
  if list_has tag (tags (ents w self)) then w
  else set_entity w self (with_tags (ents w self) (tags (ents w self) ++ [tag])).

Definition Entity_remove_tag (tag : string) (self : ref) (w : World) : World :=
  if list_has tag (tags (ents w self))
  then set_entity w self (with_tags (ents w self) (list_remove tag (tags (ents w self))))
  else w.

Definition Entity_set_active (b : bool) (self : ref) (w : World) : World :=
  set_entity w self (with_active (ents w self) b).

Definition Entity_destroy (self : ref) (w : World) : World :=
  let w1 := set_entity w self (with_marked (ents w self) true) in
  let w2 := set_entity w1 self (with_active (ents w1 self) false) in
  let w3 := fold_left (λ w c, Component_on_remove c w)
              (dict_values (components (ents w2 self))) w2 in
  set_entity w3 self (with_components (ents w3 self) []).

(** ** entity_manager.py: queries and queueing *)

Definition with_entities (m : EntityManager) (d : list (string * ref)) : EntityManager :=
  mkEntityManager d (entities_to_add m) (entities_to_remove m) (tag_index m).
Definition with_entities_to_add (m : EntityManager) (l : list ref) : EntityManager :=
  mkEntityManager (entities m) l (entities_to_remove m) (tag_index m).
Definition with_entities_to_remove (m : EntityManager) (l : list string) : EntityManager :=
  mkEntityManager (entities m) (entities_to_add m) l (tag_index m).
Definition with_tag_index (m : EntityManager) (i : gmap string (gset string)) : EntityManager :=
  mkEntityManager (entities m) (entities_to_add m) (entities_to_remove m) i.

(** [EntityManager.__init__] *)
Definition EntityManager_init : EntityManager := mkEntityManager [] [] [] ∅.

Definition EntityManager_add_entity (e : ref) (w : World) : World :=
  set_manager w (with_entities_to_add (manager w) (entities_to_add (manager w) ++ [e])).

Definition EntityManager_remove_entity (id : string) (w : World) : World :=
  if dict_has (entities (manager w)) id
  then set_manager w
         (with_entities_to_remove (manager w) (entities_to_remove (manager w) ++ [id]))
  else w.

Definition EntityManager_get_entity (id : string) (w : World) : option ref :=
  dict_get (entities (manager w)) id.

(** [[self.entities[i] for i in self.tag_index.get(tag, set()) if i in self.entities]] *)
Definition EntityManager_get_entities_with_tag (tag : string) (w : World) : list ref :=
  omap (dict_get (entities (manager w)))
       (elements (default ∅ (tag_index (manager w) !! tag))).

Definition EntityManager_get_entities_with_component (ct : string) (w : World) : list ref :=
  filter (λ e, Entity_has_component ct e w = true) (dict_values (entities (manager w))).

(** [tags]/[components] default to [None]; [None] and [[]] are both falsy. *)
Definition EntityManager_get_entities_with_tags_and_components
    (tgs cts : list string) (w : World) : list ref :=
  filter (λ e, forallb (λ t, Entity_has_tag t e w) tgs
               && forallb (λ c, Entity_has_component c e w) cts = true)
         (dict_values (entities (manager w))).

Definition EntityManager_get_entity_count (w : World) : nat :=
  length (entities (manager w)).

(** The tag index: [self.tag_index[tag].add(id)] after creating the set when
    the tag is new, and [discard] followed by [del] of an emptied set. *)
Definition index_add (idx : gmap string (gset string)) (tag id : string)
  : gmap string (gset string) :=
  <[tag := default ∅ (idx !! tag) ∪ {[id]}]> idx.

Definition index_discard (idx : gmap string (gset string)) (tag id : string)
  : gmap string (gset string) :=
  match idx !! tag with
  | Some s => if decide (s ∖ {[id]} = ∅) then delete tag idx
              else <[tag := s ∖ {[id]}]> idx
  | None => idx
  end.

(** The body of the loop of [_process_entity_additions]. *)
Definition EntityManager_add_one (w : World) (m : EntityManager) (e : ref) : EntityManager :=
  let id := entity_id (ents w e) in
  with_tag_index (with_entities m (dict_set (entities m) id e))
    (fold_left (λ idx tag, index_add idx tag id) (tags (ents w e)) (tag_index m)).

(** [EntityManager._process_entity_additions] *)
Definition EntityManager_process_entity_additions (w : World) : World :=
  set_manager w
    (with_entities_to_add
       (fold_left (EntityManager_add_one w) (entities_to_add (manager w)) (manager w)) []).

(** The body of the loop of [_process_entity_removals]. *)
Definition EntityManager_remove_one (w : World) (m : EntityManager) (id : string)
  : EntityManager :=
  match dict_get (entities m) id with
  | Some e =>
      with_tag_index (with_entities m (dict_del (entities m) id))
        (fold_left (λ idx tag, index_discard idx tag id) (tags (ents w e)) (tag_index m))
  | None => m
  end.

(** [EntityManager._process_entity_removals] *)
Definition EntityManager_process_entity_removals (w : World) : World :=
  set_manager w
    (with_entities_to_remove
       (fold_left (EntityManager_remove_one w) (entities_to_remove (manager w)) (manager w)) []).

(** ** Collaborator code

    What a component does in [update(dt)] is not part of the kernel.  It is
    modelled as a script of calls to the kernel's public operations, chosen
    by the component from [dt] and the state in which it is called. *)
Inductive Call :=
| CallDestroy (e : ref)
| CallSetActive (e : ref) (b : bool)
| CallAddTag (e : ref) (tag : string)
| CallRemoveTag (e : ref) (tag : string)
| CallAddComponent (e : ref) (c : cref)
| CallRemoveComponent (e : ref) (ct : string)
| CallSetEnabled (c : cref) (b : bool)
| CallSetData (c : cref) (d : ComponentData)
| CallAddEntity (e : ref)
| CallRemoveEntity (id : string).

Definition run_call (w : World) (k : Call) : World :=
  match k with
  | CallDestroy e => Entity_destroy e w
  | CallSetActive e b => Entity_set_active b e w
  | CallAddTag e t => Entity_add_tag t e w
  | CallRemoveTag e t => Entity_remove_tag t e w
  | CallAddComponent e c => Entity_add_component c e w
  | CallRemoveComponent e ct => fst (Entity_remove_component ct e w)
  | CallSetEnabled c b => Component_set_enabled b c w
  | CallSetData c d => set_component w c (with_data (comps w c) d)
  | CallAddEntity e => EntityManager_add_entity e w
  | CallRemoveEntity id => EntityManager_remove_entity id w
  end.

Definition changes_tags (k : Call) : bool :=
  match k with CallAddTag _ _ | CallRemoveTag _ _ => true | _ => false end.

Section Update.
(** The script of component [c]'s [update(dt)]. *)
Variable behaviour : cref → Q → World → list Call.

(** [Component.update] (abstract in the base class) *)
Definition Component_update (dt : Q) (c : cref) (w : World) : World :=
  fold_left run_call (behaviour c dt w) w.

(** [Entity.update] *)
Definition Entity_update (dt : Q) (self : ref) (w : World) : World :=
  if negb (active (ents w self)) then w
  else fold_left (λ w c, if enabled (comps w c) then Component_update dt c w else w)
         (dict_values (components (ents w self))) w.

(** One turn of the loop of [EntityManager.update].  The second component
    records the entities whose [update] was called. *)
Definition EntityManager_update_entity (dt : Q) (st : World * list ref) (e : ref)
  : World * list ref :=
  let st1 := if active (ents st.1 e) && negb (marked_for_destruction (ents st.1 e))
             then (Entity_update dt e st.1, st.2 ++ [e]) else st in
  (if marked_for_destruction (ents st1.1 e)
   then EntityManager_remove_entity (entity_id (ents st1.1 e)) st1.1
   else st1.1, st1.2).

(** The loop over the snapshot [list(self.entities.values())]. *)
Definition EntityManager_update_pass (dt : Q) (snapshot : list ref) (w : World)
  : World * list ref :=
  fold_left (EntityManager_update_entity dt) snapshot (w, []).

(** The first two steps of [EntityManager.update]: the state in which
    the pending removals are processed. *)
Definition before_removals (dt : Q) (w : World) : World :=
  let w1 := EntityManager_process_entity_additions w in
  fst (EntityManager_update_pass dt (dict_values (entities (manager w1))) w1).

(** [EntityManager.update] *)
Definition EntityManager_update (dt : Q) (w : World) : World :=
  EntityManager_process_entity_removals (before_removals dt w).
End Update.

(** [EntityManager.clear] *)
Definition EntityManager_clear (w : World) : World :=
  let w1 := fold_left (λ w e, Entity_destroy e w) (dict_values (entities (manager w))) w in
  set_manager w1 EntityManager_init.

(** ** Numbers

    [int(x)] of a float truncates towards zero; [a // b] on ints is [Z.div]
    (both round towards minus infinity and raise on a zero divisor). *)
Definition py_int (q : Q) : Z :=
  if Qle_bool 0 q then Qfloor q else Qceiling q.

Definition Qltb (a b : Q) : bool := negb (Qle_bool b a).

(** ** pygame.Rect (third-party library, version 2)

    A [Rect] stores integers: float arguments are truncated ([(int)] cast in
    C).  [colliderect] is false for a rectangle of zero width or height and
    otherwise tests strict overlap on both axes, after ordering the edges. *)
Record Rect := mkRect { left : Z; top : Z; rect_w : Z; rect_h : Z }.

Definition pygame_Rect (l t w h : Q) : Rect :=
  mkRect (py_int l) (py_int t) (py_int w) (py_int h).

Definition Rect_colliderect (a b : Rect) : bool :=
  if ((rect_w a =? 0) || (rect_h a =? 0) || (rect_w b =? 0) || (rect_h b =? 0))%Z
  then false
  else ((Z.min (left a) (left a + rect_w a) <? Z.max (left b) (left b + rect_w b))
        && (Z.min (top a) (top a + rect_h a) <? Z.max (top b) (top b + rect_h b))
        && (Z.min (left b) (left b + rect_w b) <? Z.max (left a) (left a + rect_w a))
        && (Z.min (top b) (top b + rect_h b) <? Z.max (top a) (top a + rect_h a)))%Z.

(** ** spatial_grid.py *)

Record SpatialGrid := mkSpatialGrid {
  width : Z;
  height : Z;
  cell_size : Z;
  cols : Z;
  rows : Z;
  grid : gmap (Z * Z) (list ref);            (* cell -> entities *)
  entity_cells : gmap string (gset (Z * Z)); (* entity id -> cells *)
  collision_checks : Z;
  potential_collisions : Z;
  actual_collisions : Z
}.

(** [SpatialGrid.__init__]; [None] is the [ZeroDivisionError] of [//]. *)
Definition SpatialGrid_init (width height cell_size : Z) : option SpatialGrid :=
  if (cell_size =? 0)%Z then None
  else Some (mkSpatialGrid width height cell_size
               (width / cell_size + 1)%Z (height / cell_size + 1)%Z ∅ ∅ 0 0 0).

Definition with_grid (g : SpatialGrid) (gr : gmap (Z * Z) (list ref))
    (ec : gmap string (gset (Z * Z))) : SpatialGrid :=
  mkSpatialGrid (width g) (height g) (cell_size g) (cols g) (rows g) gr ec
    (collision_checks g) (potential_collisions g) (actual_collisions g).

Definition SpatialGrid_clear (g : SpatialGrid) : SpatialGrid := with_grid g ∅ ∅.

(** Attribute reads; [None] is the [AttributeError] of an object of another class. *)
Definition attr_position (c : Component) : option (Q * Q) :=
  match data c with TransformData p => Some p | _ => None end.
Definition attr_size (c : Component) : option (Q * Q) :=
  match data c with CollisionData wd ht => Some (wd, ht) | _ => None end.
Definition attr_velocity (c : Component) : option (Q * Q) :=
  match data c with PhysicsData v => Some v | _ => None end.
Definition attr_ink_color (c : Component) : option string :=
  match data c with InkSlimeData col => Some col | _ => None end.

(** [range(a, b)] *)
Definition py_range (a b : Z) : list Z := seqZ a (b - a).

(** The bounds [min_col, max_col] (or rows) of an extent centred at [x]. *)
Definition cell_min (cs : Z) (x ext : Q) : Z :=
  Z.max 0 (py_int ((x - ext / 2) / inject_Z cs)).
Definition cell_max (cs n : Z) (x ext : Q) : Z :=
  Z.min (n - 1) (py_int ((x + ext / 2) / inject_Z cs)).

(** The cells visited by the two nested loops of [update]. *)
Definition cells_of (g : SpatialGrid) (pos size : Q * Q) : list (Z * Z) :=
  col ← py_range (cell_min (cell_size g) pos.1 size.1)
                 (cell_max (cell_size g) (cols g) pos.1 size.1 + 1);
  row ← py_range (cell_min (cell_size g) pos.2 size.2)
                 (cell_max (cell_size g) (rows g) pos.2 size.2 + 1);
  [(col, row)].

(** The body of the innermost loop. *)
Definition SpatialGrid_add_to_cell (e : ref) (id : string) (g : SpatialGrid)
    (cell_key : Z * Z) : SpatialGrid :=
  with_grid g
    (<[cell_key := default [] (grid g !! cell_key) ++ [e]]> (grid g))
    (<[id := default ∅ (entity_cells g !! id) ∪ {[cell_key]}]> (entity_cells g)).

(** The body of the loop over [entities]. *)
Definition SpatialGrid_update_entity (w : World) (g : SpatialGrid) (e : ref)
  : option SpatialGrid :=
  if negb (active (ents w e)) then Some g
  else match Entity_get_component "transform" e w, Entity_get_component "collision" e w with
       | Some t, Some c =>
           pos ← attr_position (comps w t);
           size ← attr_size (comps w c);
           if (cell_size g =? 0)%Z then None
           else
             let id := entity_id (ents w e) in
             Some (fold_left (SpatialGrid_add_to_cell e id) (cells_of g pos size)
                     (with_grid g (grid g) (<[id := ∅]> (entity_cells g))))
       | _, _ => Some g
       end.

(** [SpatialGrid.update] *)
Definition SpatialGrid_update (entities : list ref) (w : World) (g : SpatialGrid)
  : option SpatialGrid :=
  foldl (λ og e, g ← og; SpatialGrid_update_entity w g e) (Some (SpatialGrid_clear g)) entities.

(** [SpatialGrid.get_potential_collisions]: the candidates and the grid with
    its counters advanced. *)
Definition SpatialGrid_get_potential_collisions (e : ref) (w : World) (g : SpatialGrid)
  : list ref * SpatialGrid :=
  let g1 := mkSpatialGrid (width g) (height g) (cell_size g) (cols g) (rows g)
              (grid g) (entity_cells g)
              (collision_checks g + 1) (potential_collisions g) (actual_collisions g) in
  let id := entity_id (ents w e) in
  match entity_cells g !! id with
  | None => ([], g1)
  | Some cells =>
      let found : gset ref :=
        list_to_set (cell_key ← elements cells;
                     other ← default [] (grid g !! cell_key);
                     if negb (bool_decide (entity_id (ents w other) = id))
                        && active (ents w other)
                     then [other] else []) in
      (elements found,
       mkSpatialGrid (width g) (height g) (cell_size g) (cols g) (rows g)
         (grid g) (entity_cells g)
         (collision_checks g + 1) (potential_collisions g + Z.of_nat (size found))
         (actual_collisions g))
  end.

(** The rectangle [check_collision] builds for an entity. *)
Definition collision_rect (pos size : Q * Q) : Rect :=
  pygame_Rect (pos.1 - size.1 / 2) (pos.2 - size.2 / 2) size.1 size.2.

(** [SpatialGrid.check_collision] *)
Definition SpatialGrid_check_collision (e1 e2 : ref) (w : World) (g : SpatialGrid)
  : option (bool * SpatialGrid) :=
  match Entity_get_component "transform" e1 w, Entity_get_component "collision" e1 w,
        Entity_get_component "transform" e2 w, Entity_get_component "collision" e2 w with
  | Some t1, Some c1, Some t2, Some c2 =>
      pos1 ← attr_position (comps w t1);
      size1 ← attr_size (comps w c1);
      pos2 ← attr_position (comps w t2);
      size2 ← attr_size (comps w c2);
      let collision := Rect_colliderect (collision_rect pos1 size1) (collision_rect pos2 size2) in
      Some (collision,
            if collision
            then mkSpatialGrid (width g) (height g) (cell_size g) (cols g) (rows g)
                   (grid g) (entity_cells g) (collision_checks g)
                   (potential_collisions g) (actual_collisions g + 1)
            else g)
  | _, _, _, _ => Some (false, g)
  end.

(** ** object_pool.py *)

(** [l.pop()]: the last element and the rest. *)
Definition list_pop {A} (l : list A) : option (A * list A) :=
  match reverse l with
  | [] => None
  | x :: r => Some (x, reverse r)
  end.

Record ObjectPool (T : Type) := mkObjectPool {
  active_objects : list T;
  inactive_objects : list T;
  peak_active_count : Z;
  total_created : Z
}.
Arguments mkObjectPool {T}.
Arguments active_objects {T}.
Arguments inactive_objects {T}.
Arguments peak_active_count {T}.
Arguments total_created {T}.

Section ObjectPool.
(** The pooled objects [T] compare by [==]; [St] is the state the two
    closures of the pool's owner act on. *)
Context {T St : Type} `{EqDecision T}.
Variable factory_func : St → T * St.
Variable reset_func : T → St → St.

(** [ObjectPool.__init__]: [range(initial_size)] is empty for a negative size. *)
Definition ObjectPool_init (initial_size : Z) (s : St) : ObjectPool T * St :=
  let '(l, s') := Nat.iter (Z.to_nat initial_size)
                    (λ '(l, s), let '(o, s') := factory_func s in (l ++ [o], s'))
                    ([], s) in
  (mkObjectPool [] l 0 initial_size, s').

Definition update_peak (p : ObjectPool T) : ObjectPool T :=
  if (peak_active_count p <? Z.of_nat (length (active_objects p)))%Z
  then mkObjectPool (active_objects p) (inactive_objects p)
         (Z.of_nat (length (active_objects p))) (total_created p)
  else p.

(** [ObjectPool.get] *)
Definition ObjectPool_get (p : ObjectPool T) (s : St) : T * ObjectPool T * St :=
  match list_pop (inactive_objects p) with
  | None =>
      let '(new_object, s') := factory_func s in
      (new_object,
       update_peak (mkObjectPool (active_objects p ++ [new_object]) (inactive_objects p)
                      (peak_active_count p) (total_created p + 1)),
       s')
  | Some (new_object, rest) =>
      (new_object,
       update_peak (mkObjectPool (active_objects p ++ [new_object]) rest
                      (peak_active_count p) (total_created p)),
       s)
  end.

(** [ObjectPool.release] *)
Definition ObjectPool_release (obj : T) (p : ObjectPool T) (s : St) : ObjectPool T * St :=
  if list_has obj (active_objects p)
  then (mkObjectPool (list_remove obj (active_objects p)) (inactive_objects p ++ [obj])
          (peak_active_count p) (total_created p),
        reset_func obj s)
  else (p, s).

(** [ObjectPool.release_all]: the loop runs over a copy of the active list. *)
Definition ObjectPool_release_all (p : ObjectPool T) (s : St) : ObjectPool T * St :=
  fold_left (λ ps obj, ObjectPool_release obj ps.1 ps.2) (active_objects p) (p, s).
End ObjectPool.

(** [class ProjectilePool]: one pool of entities per ink colour. *)
Record ProjectilePool := mkProjectilePool {
  pools : list (string * ObjectPool ref)
}.

(** [ProjectilePool._reset_projectile] *)
Definition ProjectilePool_reset_projectile (projectile : ref) (w : World) : option World :=
  w1 ← match Entity_get_component "transform" projectile w with
       | Some t => _ ← attr_position (comps w t);
                   Some (set_component w t
                           (with_data (comps w t) (TransformData (- (1000), - (1000))%Q)))
       | None => Some w
       end;
  w2 ← match Entity_get_component "physics" projectile w1 with
       | Some ph => _ ← attr_velocity (comps w1 ph);
                    Some (set_component w1 ph (with_data (comps w1 ph) (PhysicsData (0, 0)%Q)))
       | None => Some w1
       end;
  Some (Entity_set_active false projectile w2).

(** [ProjectilePool.release_projectile]; [None] is an exception
    ([KeyError] when the fallback pool is missing, or one raised in the reset). *)
Definition ProjectilePool_release_projectile (projectile : ref) (pp : ProjectilePool)
    (w : World) : option (ProjectilePool * World) :=
  match Entity_get_component "ink_slime" projectile w with
  | Some ink_component =>
      color ← attr_ink_color (comps w ink_component);
      let key := if dict_has (pools pp) color then color else "dark_blue" in
      pool ← dict_get (pools pp) key;
      let r := ObjectPool_release (λ o ow, ow ≫= ProjectilePool_reset_projectile o)
                 projectile pool (Some w) in
      w' ← r.2;
      Some (mkProjectilePool (dict_set (pools pp) key r.1), w')
  | None => Some (pp, w)
  end.

(** ** Notions used in the statements: the entity manager *)

(** The tag index lists [id] under [tag]. *)
Definition lists (idx : gmap string (gset string)) (tag id : string) : Prop :=
  id ∈ default ∅ (idx !! tag).
Definition index_lists (w : World) (tag id : string) : Prop :=
  lists (tag_index (manager w)) tag id.

(** The table is a dictionary (no key twice) from entity ids to entities. *)
Definition table_ok (w : World) : Prop :=
  NoDup (dict_keys (entities (manager w))) ∧
  ∀ k e, (k, e) ∈ entities (manager w) → entity_id (ents w e) = k.

(** Distinct entities, tracked or pending, have distinct ids. *)
Definition unique_ids (w : World) : Prop :=
  ∀ e1 e2,
    e1 ∈ dict_values (entities (manager w)) ++ entities_to_add (manager w) →
    e2 ∈ dict_values (entities (manager w)) ++ entities_to_add (manager w) →
    entity_id (ents w e1) = entity_id (ents w e2) → e1 = e2.

(** The invariant of section 3 of the specification, in both directions:
    what the index lists is in the table and carries the tag, and what the
    table holds is listed under each of its tags. *)
Definition consistent_with (w : World) (m : EntityManager) : Prop :=
  (∀ tag id, lists (tag_index m) tag id →
     ∃ e, dict_get (entities m) id = Some e ∧ tag ∈ tags (ents w e)) ∧
  (∀ id e tag, dict_get (entities m) id = Some e → tag ∈ tags (ents w e) →
     lists (tag_index m) tag id).

Definition tag_index_consistent (w : World) : Prop := consistent_with w (manager w).

(** No component calls [add_tag] or [remove_tag] from its [update]. *)
Definition keeps_tags (behaviour : cref → Q → World → list Call) : Prop :=
  ∀ c dt w k, k ∈ behaviour c dt w → changes_tags k = false.

(** The states of the kernel reached from a new manager through its public
    operations: entities are submitted and withdrawn, ticks run (with ids
    that tell the submitted entities apart), and between ticks the
    collaborators call the other operations; [add_tag] and [remove_tag] are
    called on entities that are not in the table. *)
Inductive kernel_reachable (behaviour : cref → Q → World → list Call) : World → Prop :=
| reach_new es cs :
    kernel_reachable behaviour (mkWorld es cs EntityManager_init)
| reach_add_entity e w :
    kernel_reachable behaviour w →
    kernel_reachable behaviour (EntityManager_add_entity e w)
| reach_remove_entity id w :
    kernel_reachable behaviour w →
    kernel_reachable behaviour (EntityManager_remove_entity id w)
| reach_update dt w :
    kernel_reachable behaviour w → unique_ids w →
    kernel_reachable behaviour (EntityManager_update behaviour dt w)
| reach_call k w :
    kernel_reachable behaviour w → changes_tags k = false →
    kernel_reachable behaviour (run_call w k)
| reach_add_tag tag e w :
    kernel_reachable behaviour w → e ∉ dict_values (entities (manager w)) →
    kernel_reachable behaviour (Entity_add_tag tag e w)
| reach_remove_tag tag e w :
    kernel_reachable behaviour w → e ∉ dict_values (entities (manager w)) →
    kernel_reachable behaviour (Entity_remove_tag tag e w).

(** What collaborator code cannot change: the table, the tag index and the
    ids of the entities stay as they are, and nothing leaves the removal
    queue. *)
Definition steady (w w' : World) : Prop :=
  entities (manager w') = entities (manager w) ∧
  tag_index (manager w') = tag_index (manager w) ∧
  (∀ e, entity_id (ents w' e) = entity_id (ents w e)) ∧
  (∀ id, id ∈ entities_to_remove (manager w) → id ∈ entities_to_remove (manager w')).

Definition same_tags (w w' : World) : Prop :=
  ∀ e, tags (ents w' e) = tags (ents w e).

(** A turn of the update loop keeps the world steady and only extends the
    record of updated entities. *)
Definition turn_rel (st st' : World * list ref) : Prop :=
  steady st.1 st'.1 ∧ ∀ e, e ∈ st.2 → e ∈ st'.2.

(** The entity [r] is out of the table and of the index sets of its tags. *)
Definition removed (w : World) (r : ref) (m : EntityManager) : Prop :=
  dict_get (entities m) (entity_id (ents w r)) = None ∧
  ∀ tag, tag ∈ tags (ents w r) → ¬ lists (tag_index m) tag (entity_id (ents w r)).

(** ** Notions used in the statements: the spatial grid *)

(** The open intervals [(l1, r1)] and [(l2, r2)] have a point in common. *)
Definition intervals_overlap (l1 r1 l2 r2 : Q) : Prop :=
  (l1 < r1 ∧ l2 < r2 ∧ l1 < r2 ∧ l2 < r1)%Q.

(** The open rectangles position ± half extent overlap on both axes. *)
Definition boxes_overlap (pos1 size1 pos2 size2 : Q * Q) : Prop :=
  intervals_overlap (pos1.1 - size1.1 / 2) (pos1.1 + size1.1 / 2)
                    (pos2.1 - size2.1 / 2) (pos2.1 + size2.1 / 2) ∧
  intervals_overlap (pos1.2 - size1.2 / 2) (pos1.2 + size1.2 / 2)
                    (pos2.2 - size2.2 / 2) (pos2.2 + size2.2 / 2).

(** A rational that is a whole number (of pixels). *)
Definition whole (q : Q) : Prop := (inject_Z (Qfloor q) == q)%Q.

(** The corners and the extents of the box are whole numbers, and the
    extents are not negative. *)
Definition pixel_aligned (pos size : Q * Q) : Prop :=
  whole (pos.1 - size.1 / 2) ∧ whole (pos.2 - size.2 / 2) ∧
  whole size.1 ∧ whole size.2 ∧ (0 <= size.1)%Q ∧ (0 <= size.2)%Q.

(** The position and extent the grid reads from an entity. *)
Definition box_of (e : ref) (w : World) : option ((Q * Q) * (Q * Q)) :=
  t ← Entity_get_component "transform" e w;
  c ← Entity_get_component "collision" e w;
  pos ← attr_position (comps w t);
  size ← attr_size (comps w c);
  Some (pos, size).

(** The cells recorded for an entity by the last rebuild (none when the
    entity is not in the grid). *)
Definition assigned (g : SpatialGrid) (w : World) (e : ref) : gset (Z * Z) :=
  default ∅ (entity_cells g !! entity_id (ents w e)).

(** Two grids of the same geometry. *)
Definition same_shape (g g' : SpatialGrid) : Prop :=
  cell_size g' = cell_size g ∧ cols g' = cols g ∧ rows g' = rows g.

(** What a rebuild from [l] puts into a grid: each active entity with a box
    sits in the cells of its box, and those cells are recorded under its id. *)
Definition rebuilt (l : list ref) (w : World) (g g' : SpatialGrid) : Prop :=
  same_shape g g' ∧
  (∀ cell e, e ∈ default [] (grid g' !! cell) →
     e ∈ l ∧ ∃ pos size, box_of e w = Some (pos, size) ∧ cell ∈ cells_of g pos size) ∧
  (∀ e pos size, e ∈ l → active (ents w e) = true → box_of e w = Some (pos, size) →
     cell_size g ≠ 0%Z ∧
     entity_cells g' !! entity_id (ents w e) = Some (list_to_set (cells_of g pos size)) ∧
     ∀ cell, cell ∈ cells_of g pos size → e ∈ default [] (grid g' !! cell)).

(** ** Notions used in the statements: the pools *)

Section PoolStates.
Context {T St : Type} `{EqDecision T}.
Variable factory_func : St → T * St.
Variable reset_func : T → St → St.

(** The states of a pool built with [initial_size] and then used through
    [get], [release] (of any object) and [release_all], while the rest of
    the program changes its own state at will. *)
Inductive pool_reachable (initial_size : Z) : ObjectPool T → St → Prop :=
| reach_init s :
    pool_reachable initial_size
      (ObjectPool_init factory_func initial_size s).1
      (ObjectPool_init factory_func initial_size s).2
| reach_get p s :
    pool_reachable initial_size p s →
    pool_reachable initial_size
      (ObjectPool_get factory_func p s).1.2 (ObjectPool_get factory_func p s).2
| reach_release obj p s :
    pool_reachable initial_size p s →
    pool_reachable initial_size
      (ObjectPool_release reset_func obj p s).1 (ObjectPool_release reset_func obj p s).2
| reach_release_all p s :
    pool_reachable initial_size p s →
    pool_reachable initial_size
      (ObjectPool_release_all reset_func p s).1 (ObjectPool_release_all reset_func p s).2
| reach_elsewhere p s s' :
    pool_reachable initial_size p s → pool_reachable initial_size p s'.

Definition pool_conserved (p : ObjectPool T) : Prop :=
  Z.of_nat (length (active_objects p) + length (inactive_objects p)) = total_created p.
End PoolStates.

(** ** Small worlds and scripts for the examples *)

(** Entity [0], with id "e", tag "t" and one component, not yet submitted. *)
Definition solo : World :=
  mkWorld
    (λ r, match r with
          | O => mkEntity "e" "Entity" [("ink_slime", O)] ["t"] true false
          | _ => mkEntity "spare" "Entity" [] [] true false
          end)
    (λ _, mkComponent "ink_slime" (Some O) true (InkSlimeData "red"))
    EntityManager_init.

Definition quiet : cref → Q → World → list Call := λ _ _ _, [].
Definition self_destruct : cref → Q → World → list Call := λ _ _ _, [CallDestroy O].
Definition drop_tag_and_die : cref → Q → World → list Call :=
  λ _ _ _, [CallRemoveTag O "t"; CallDestroy O].

(** Two entities [0] and [1] with a transform and a collision component each. *)
Definition two_boxes (pos1 size1 pos2 size2 : Q * Q) : World :=
  mkWorld
    (λ r, match r with
          | O => mkEntity "a" "Entity" [("transform", 0); ("collision", 1)]%nat [] true false
          | _ => mkEntity "b" "Entity" [("transform", 2); ("collision", 3)]%nat [] true false
          end)
    (λ c, match c with
          | 0 => mkComponent "transform" (Some 0) true (TransformData pos1)
          | 1 => mkComponent "collision" (Some 0) true (CollisionData size1.1 size1.2)
          | 2 => mkComponent "transform" (Some 1) true (TransformData pos2)
          | _ => mkComponent "collision" (Some 1) true (CollisionData size2.1 size2.2)
          end%nat)
    EntityManager_init.

Definition small_grid : SpatialGrid := mkSpatialGrid 100 100 100 2 2 ∅ ∅ 0 0 0.

(** Two overlapping boxes inside the small grid, and two far outside it. *)
Definition boxes_inside : World := two_boxes (50, 50)%Q (10, 10)%Q (58, 50)%Q (10, 10)%Q.
Definition boxes_outside : World := two_boxes (1000, 1000)%Q (10, 10)%Q (1002, 1000)%Q (10, 10)%Q.

(** The grid rebuilt from the two entities of such a world. *)
Definition rebuild (w : World) : SpatialGrid :=
  default small_grid (SpatialGrid_update [0; 1]%nat w small_grid).

(** Entities [0] and [1] share the id "x"; the first carries the tag "a",
    the second the tag "b", and only the second one's component acts: it
    destroys its entity. *)
Definition twins : World :=
  mkWorld
    (λ r, match r with
          | O => mkEntity "x" "Entity" [("ink_slime", 0%nat)] ["a"] true false
          | _ => mkEntity "x" "Entity" [("ink_slime", 1%nat)] ["b"] true false
          end)
    (λ c, mkComponent "ink_slime" (Some c) true (InkSlimeData "red"))
    EntityManager_init.
Definition second_dies : cref → Q → World → list Call :=
  λ c _ _, match c with O => [] | _ => [CallDestroy 1%nat] end.

(** A bare entity that the ["red"] pool has handed out. *)
Definition bare_world : World :=
  mkWorld (λ _, mkEntity "p" "Entity" [] [] true false)
          (λ _, mkComponent "ink_slime" None true (InkSlimeData "red"))
          EntityManager_init.
Definition red_pool : ProjectilePool :=
  mkProjectilePool [("red", mkObjectPool [0%nat] [] 1 1)].

(** ** Further operations of the kernel *)

(** [SpatialGrid.get_nearby_entities]; [None] is the [ZeroDivisionError]. *)
Definition SpatialGrid_get_nearby_entities (x y radius : Q) (w : World) (g : SpatialGrid)
  : option (list ref) :=
  if (cell_size g =? 0)%Z then None
  else
    let min_col := Z.max 0 (py_int ((x - radius) / inject_Z (cell_size g))) in
    let max_col := Z.min (cols g - 1) (py_int ((x + radius) / inject_Z (cell_size g))) in
    let min_row := Z.max 0 (py_int ((y - radius) / inject_Z (cell_size g))) in
    let max_row := Z.min (rows g - 1) (py_int ((y + radius) / inject_Z (cell_size g))) in
    let nearby_entities : gset ref :=
      list_to_set (col ← py_range min_col (max_col + 1);
                   row ← py_range min_row (max_row + 1);
                   e ← default [] (grid g !! (col, row));
                   if active (ents w e) then [e] else []) in
    Some (elements nearby_entities).

(** [SpatialGrid.get_entities_by_tag] *)
Definition SpatialGrid_get_entities_by_tag (tag : string) (w : World) (g : SpatialGrid)
  : list ref :=
  let found : gset ref :=
    list_to_set (cell_entities ← (map_to_list (grid g)).*2;
                 e ← cell_entities;
                 if list_has tag (tags (ents w e)) && active (ents w e) then [e] else []) in
  elements found.

(** [n] calls of [get] in a row; the objects handed out, first to last. *)
Fixpoint ObjectPool_get_many {T St : Type} (factory_func : St → T * St)
    (n : nat) (p : ObjectPool T) (s : St) : list T * ObjectPool T * St :=
  match n with
  | O => ([], p, s)
  | S n' =>
      let g := ObjectPool_get factory_func p s in
      let r := ObjectPool_get_many factory_func n' g.1.2 g.2 in
      (g.1.1 :: r.1.1, r.1.2, r.2)
  end.

(** The store agrees everywhere. *)
Definition same_store (w w' : World) : Prop :=
  (∀ e, ents w' e = ents w e) ∧ (∀ c, comps w' c = comps w c) ∧ manager w' = manager w.

(** What [destroy] leaves of an entity. *)
Definition destroyed (x : Entity) : Entity :=
  mkEntity (entity_id x) (name x) [] (tags x) false true.

(** What is in a rebuilt grid comes from the list: a recorded id is the id
    of an active entity of the list with a box, and so is every entity
    found in a cell. *)
Definition registered (l : list ref) (w : World) (g' : SpatialGrid) : Prop :=
  (∀ id s, entity_cells g' !! id = Some s →
     ∃ e, e ∈ l ∧ entity_id (ents w e) = id ∧ active (ents w e) = true ∧
          is_Some (box_of e w)) ∧
  (∀ cell e, e ∈ default [] (grid g' !! cell) →
     e ∈ l ∧ active (ents w e) = true ∧ is_Some (box_of e w)).

(** A projectile [0] with transform, physics and ink components, handed out
    by the ["red"] pool, and the counting factory used in the examples. *)
Definition flying_world : World :=
  mkWorld
    (λ _, mkEntity "p" "InkSlime"
            [("transform", 0); ("physics", 1); ("ink_slime", 2)]%nat
            ["projectile"] true false)
    (λ c, match c with
          | 0 => mkComponent "transform" (Some 0) true (TransformData (320, 240)%Q)
          | 1 => mkComponent "physics" (Some 0) true (PhysicsData (0, - (300))%Q)
          | _ => mkComponent "ink_slime" (Some 0) true (InkSlimeData "red")
          end%nat)
    EntityManager_init.

Definition counting_factory : nat → nat * nat := λ n, (n, S n).
Definition no_reset : nat → nat → nat := λ _ s, s.

(** * Python lists *)

Lemma list_pop_snoc {A} (l : list A) (x : A) : list_pop (l ++ [x]) = Some (x, l).
Proof. unfold list_pop. by rewrite reverse_snoc, reverse_involutive. Qed.

Lemma list_pop_Some {A} (l r : list A) (x : A) : list_pop l = Some (x, r) → l = r ++ [x].
Proof.
  unfold list_pop. destruct (reverse l) eqn:E; [done|].
  intros [= <- <-]. apply (f_equal reverse) in E.
  by rewrite reverse_involutive, reverse_cons in E.
Qed.

Lemma list_has_snoc {A} `{EqDecision A} (l : list A) (x : A) : list_has x (l ++ [x]) = true.
Proof.
  unfold list_has. apply bool_decide_eq_true.
  apply elem_of_app. right. apply list_elem_of_singleton. done.
Qed.

Lemma list_remove_length {A} `{EqDecision A} (x : A) (l : list A) :
  x ∈ l → S (length (list_remove x l)) = length l.
Proof.
  induction l as [|y l IH]; [by intros ?%elem_of_nil|].
  intros Hx. simpl. destruct (decide (x = y)) as [|Hne]; [done|].
  simpl. f_equal. apply IH. apply elem_of_cons in Hx as [?|?]; [done|done].
Qed.

(** * Object pools *)

Section PoolFacts.
Context {T St : Type} `{EqDecision T}.
Variable factory_func : St → T * St.
Variable reset_func : T → St → St.

Lemma update_peak_active (p : ObjectPool T) :
  active_objects (update_peak p) = active_objects p.
Proof. unfold update_peak. by destruct (_ <? _)%Z. Qed.

Lemma update_peak_inactive (p : ObjectPool T) :
  inactive_objects (update_peak p) = inactive_objects p.
Proof. unfold update_peak. by destruct (_ <? _)%Z. Qed.

Lemma update_peak_total (p : ObjectPool T) :
  total_created (update_peak p) = total_created p.
Proof. unfold update_peak. by destruct (_ <? _)%Z. Qed.

Lemma update_peak_conserved (p : ObjectPool T) :
  pool_conserved p → pool_conserved (update_peak p).
Proof.
  unfold pool_conserved.
  by rewrite update_peak_active, update_peak_inactive, update_peak_total.
Qed.

(** What [get] hands out is the last active object afterwards. *)
Lemma ObjectPool_get_active (p : ObjectPool T) (s : St) :
  active_objects (ObjectPool_get factory_func p s).1.2
  = active_objects p ++ [(ObjectPool_get factory_func p s).1.1].
Proof.
  unfold ObjectPool_get. destruct (list_pop (inactive_objects p)) as [[o r]|].
  - simpl. by rewrite update_peak_active.
  - destruct (factory_func s) as [o s']. simpl. by rewrite update_peak_active.
Qed.

Lemma init_inactive_length (n : nat) (s : St) :
  length (Nat.iter n (λ '(l, s), let '(o, s') := factory_func s in (l ++ [o], s'))
            ([], s)).1 = n.
Proof.
  induction n as [|n IH]; [done|]. simpl.
  destruct (Nat.iter n _ _) as [l s1]. destruct (factory_func s1) as [o s2].
  simpl in *. rewrite length_app. simpl. lia.
Qed.

Lemma ObjectPool_init_conserved (initial_size : Z) (s : St) :
  (0 ≤ initial_size)%Z →
  pool_conserved (ObjectPool_init factory_func initial_size s).1.
Proof.
  intros Hn. unfold ObjectPool_init, pool_conserved.
  pose proof (init_inactive_length (Z.to_nat initial_size) s) as Hl.
  destruct (Nat.iter _ _ _) as [l s1]. simpl in *. lia.
Qed.

Lemma ObjectPool_get_conserved (p : ObjectPool T) (s : St) :
  pool_conserved p → pool_conserved (ObjectPool_get factory_func p s).1.2.
Proof.
  intros Hp. unfold ObjectPool_get.
  destruct (list_pop (inactive_objects p)) as [[o r]|] eqn:E.
  - simpl. apply update_peak_conserved. apply list_pop_Some in E.
    unfold pool_conserved in *. simpl. rewrite E in Hp.
    rewrite !length_app in *. simpl in *. lia.
  - destruct (factory_func s) as [o s']. simpl. apply update_peak_conserved.
    unfold pool_conserved in *. simpl. rewrite length_app. simpl. lia.
Qed.

Lemma ObjectPool_release_conserved (obj : T) (p : ObjectPool T) (s : St) :
  pool_conserved p → pool_conserved (ObjectPool_release reset_func obj p s).1.
Proof.
  intros Hp. unfold ObjectPool_release, list_has. case_bool_decide as Hin; [|done].
  unfold pool_conserved in *. simpl.
  pose proof (list_remove_length _ _ Hin). rewrite length_app. simpl. lia.
Qed.

Lemma ObjectPool_release_all_conserved (p : ObjectPool T) (s : St) :
  pool_conserved p → pool_conserved (ObjectPool_release_all reset_func p s).1.
Proof.
  unfold ObjectPool_release_all. generalize (active_objects p) as l.
  intros l. revert p s. induction l as [|o l IH]; intros p s Hp; [done|].
  simpl. destruct (ObjectPool_release reset_func o p s) as [p1 s1] eqn:E.
  apply IH. replace p1 with (ObjectPool_release reset_func o p s).1 by by rewrite E.
  by apply ObjectPool_release_conserved.
Qed.
End PoolFacts.

(** C7. Pool round trip: [get()] returning [obj], then [release(obj)], then
    [get()] again returns the same [obj]; between the release and the
    second [get] the state of the pool's owner has gone through exactly one
    application of the reset function, to [obj], and through nothing else. *)
Theorem pool_round_trip {T St : Type} `{EqDecision T}
    (factory_func : St → T * St) (reset_func : T → St → St)
    (p : ObjectPool T) (s : St) :
  let g1 := ObjectPool_get factory_func p s in
  let r := ObjectPool_release reset_func g1.1.1 g1.1.2 g1.2 in
  let g2 := ObjectPool_get factory_func r.1 r.2 in
  g2.1.1 = g1.1.1 ∧ r.2 = reset_func g1.1.1 g1.2 ∧ g2.2 = r.2.
Proof.
  intros g1 r g2.
  assert (Hr : r = (mkObjectPool (list_remove g1.1.1 (active_objects g1.1.2))
                      (inactive_objects g1.1.2 ++ [g1.1.1])
                      (peak_active_count g1.1.2) (total_created g1.1.2),
                    reset_func g1.1.1 g1.2)).
  { subst r. unfold ObjectPool_release. subst g1.
    by rewrite ObjectPool_get_active, list_has_snoc. }
  assert (Hg : g2.1.1 = g1.1.1 ∧ g2.2 = r.2).
  { subst g2. unfold ObjectPool_get. rewrite Hr. simpl. by rewrite list_pop_snoc. }
  destruct Hg as [-> ->]. by rewrite Hr.
Qed.

(** C9 (as amended). Pool object conservation: for a pool constructed with a
    non-negative initial size, in every state reachable through [get],
    [release] of any object and [release_all], the numbers of active and of
    inactive objects add up to [total_created]. *)
Theorem pool_conservation {T St : Type} `{EqDecision T}
    (factory_func : St → T * St) (reset_func : T → St → St)
    (initial_size : Z) (p : ObjectPool T) (s : St) :
  (0 ≤ initial_size)%Z →
  pool_reachable factory_func reset_func initial_size p s →
  pool_conserved p.
Proof.
  intros Hn Hreach. induction Hreach.
  - by apply ObjectPool_init_conserved.
  - by apply ObjectPool_get_conserved.
  - by apply ObjectPool_release_conserved.
  - by apply ObjectPool_release_all_conserved.
  - done.
Qed.

Lemma pool_conservation_witness :
  pool_conserved
    (ObjectPool_get (λ n : nat, (n, S n))
       (ObjectPool_init (λ n : nat, (n, S n)) 2 0%nat).1
       (ObjectPool_init (λ n : nat, (n, S n)) 2 0%nat).2).1.2.
Proof.
  apply (pool_conservation (λ n : nat, (n, S n)) (λ _ s, s) 2 _
           (ObjectPool_get (λ n : nat, (n, S n))
              (ObjectPool_init (λ n : nat, (n, S n)) 2 0%nat).1
              (ObjectPool_init (λ n : nat, (n, S n)) 2 0%nat).2).2).
  - lia.
  - apply reach_get, reach_init.
Defined.

(** C9 as stated fails: a pool constructed with initial size [-1] holds no
    object and reports [total_created = -1]. *)
Lemma negative_size_breaks_conservation :
  ¬ (∀ (initial_size : Z) (p : ObjectPool nat) (s : nat),
       pool_reachable (λ n : nat, (n, S n)) (λ _ s, s) initial_size p s →
       pool_conserved p).
Proof.
  intros H.
  specialize (H (-1)%Z _ _ (reach_init (λ n : nat, (n, S n)) (λ _ s, s) (-1)%Z 0%nat)).
  vm_compute in H. discriminate H.
Qed.

(** * Projectile pool *)

(** C10. [release_projectile] needs the discriminator component: for an
    object without an ["ink_slime"] component the call returns normally and
    leaves every sub-pool (and everything else) as it was. *)
Theorem release_projectile_without_ink_slime
    (projectile : ref) (pp : ProjectilePool) (w : World) :
  Entity_get_component "ink_slime" projectile w = None →
  ProjectilePool_release_projectile projectile pp w = Some (pp, w).
Proof. intros H. unfold ProjectilePool_release_projectile. by rewrite H. Qed.

Lemma release_projectile_without_ink_slime_witness :
  ProjectilePool_release_projectile 0%nat red_pool bare_world = Some (red_pool, bare_world).
Proof. apply (release_projectile_without_ink_slime 0%nat red_pool bare_world). reflexivity. Defined.

Lemma Entity_destroy_get_component (ct : string) (e : ref) (w : World) :
  Entity_get_component ct e (Entity_destroy e w) = None.
Proof.
  unfold Entity_get_component, Entity_destroy, set_entity, upd. simpl.
  by rewrite decide_True.
Qed.

(** The case the claim points at: a destroyed projectile has lost its
    components, so it is not returned to its pool. *)
Lemma release_projectile_after_destroy (e : ref) (pp : ProjectilePool) (w : World) :
  ProjectilePool_release_projectile e pp (Entity_destroy e w)
  = Some (pp, Entity_destroy e w).
Proof.
  unfold ProjectilePool_release_projectile. by rewrite Entity_destroy_get_component.
Qed.

(** * Spatial grid: construction *)

(** C8 (as amended). Construction of a grid fails exactly when the cell size
    is zero, where the integer division raises; every other cell size, the
    negative ones included, yields a grid with [width // cell_size + 1]
    columns and [height // cell_size + 1] rows. *)
Theorem SpatialGrid_init_fails_iff_zero (width height cell_size : Z) :
  (SpatialGrid_init width height cell_size = None ↔ cell_size = 0%Z) ∧
  ∀ g, SpatialGrid_init width height cell_size = Some g ↔
       (cell_size ≠ 0%Z ∧
        g = mkSpatialGrid width height cell_size
              (width / cell_size + 1) (height / cell_size + 1) ∅ ∅ 0 0 0).
Proof.
  unfold SpatialGrid_init. destruct (Z.eqb_spec cell_size 0) as [->|Hne].
  - split; [done|]. intros g. split; [done|]. by intros [? _].
  - split; [done|]. intros g. split.
    + by intros [= <-].
    + by intros [_ ->].
Qed.

(** C8 as stated fails: a negative cell size is accepted, and the grid it
    yields has a negative number of columns and rows. *)
Lemma SpatialGrid_init_negative_cell_size :
  ¬ (∀ width height cell_size : Z,
       (cell_size ≤ 0)%Z → SpatialGrid_init width height cell_size = None).
Proof. intros H. specialize (H 800 600 (-100))%Z. by discriminate H. Qed.

Example negative_cell_size_grid :
  SpatialGrid_init 800 600 (-100)
  = Some (mkSpatialGrid 800 600 (-100) (-7) (-5) ∅ ∅ 0 0 0).
Proof. reflexivity. Qed.

(** * Components and their back-reference *)

Lemma fold_on_remove (l : list cref) (w : World) :
  fold_left (λ w c, Component_on_remove c w) l w = w.
Proof. revert w. induction l as [|c l IH]; intros w; [done|]. simpl. apply IH. Qed.

Lemma Entity_destroy_comps (e : ref) (w : World) :
  comps (Entity_destroy e w) = comps w.
Proof. unfold Entity_destroy. by rewrite fold_on_remove. Qed.

(** The sibling path: [remove_component] clears the back-reference of the
    component it detaches. *)
Lemma Entity_remove_component_clears (ct : string) (e : ref) (w : World) (c : cref) :
  (Entity_remove_component ct e w).2 = Some c →
  entity (comps (Entity_remove_component ct e w).1 c) = None ∧
  Entity_get_component ct e (Entity_remove_component ct e w).1 = None.
Proof.
  unfold Entity_remove_component, Entity_get_component.
  destruct (dict_get (components (ents w e)) ct) as [c'|] eqn:E; [|done].
  intros [= ->]. simpl. unfold upd. rewrite !decide_True by done. simpl.
  split; [done|].
  clear E. induction (components (ents w e)) as [|[k v] d IH]; [done|].
  simpl. destruct (decide (ct = k)); [done|]. simpl. by rewrite decide_False.
Qed.

(** C6 (code defect). [destroy] empties the component dictionary without
    clearing the back-references: a component attached with [add_component]
    still points at the entity after [destroy], although the entity no
    longer has it. *)
Theorem Entity_destroy_leaves_back_reference (c : cref) (e : ref) (w : World) :
  let w' := Entity_destroy e (Entity_add_component c e w) in
  entity (comps w' c) = Some e ∧
  Entity_get_component (component_type (comps w c)) e w' = None.
Proof.
  intros w'. subst w'. split; [|apply Entity_destroy_get_component].
  rewrite Entity_destroy_comps. unfold Entity_add_component, Component_on_add.
  simpl. unfold upd. by rewrite decide_True.
Qed.

(** * Spatial grid: the narrow phase *)

Lemma py_int_whole (q : Q) : whole q → py_int q = Qfloor q.
Proof.
  unfold whole, py_int. intros H. destruct (Qle_bool 0 q); [done|].
  rewrite <- (Qceiling_comp _ _ H). apply Qceiling_Z.
Qed.

Lemma intervals_overlap_whole (L1 W1 L2 W2 : Z) (l1 r1 l2 r2 : Q) :
  (l1 == inject_Z L1)%Q → (r1 == inject_Z (L1 + W1))%Q →
  (l2 == inject_Z L2)%Q → (r2 == inject_Z (L2 + W2))%Q →
  intervals_overlap l1 r1 l2 r2 ↔ (0 < W1 ∧ 0 < W2 ∧ L1 < L2 + W2 ∧ L2 < L1 + W1)%Z.
Proof.
  intros E1 E2 E3 E4. unfold intervals_overlap.
  rewrite E1, E2, E3, E4, <- !Zlt_Qlt. lia.
Qed.

Lemma Rect_colliderect_nonneg (a b : Rect) :
  (0 ≤ rect_w a)%Z → (0 ≤ rect_h a)%Z → (0 ≤ rect_w b)%Z → (0 ≤ rect_h b)%Z →
  Rect_colliderect a b = true ↔
  ((0 < rect_w a ∧ 0 < rect_w b ∧ left a < left b + rect_w b ∧ left b < left a + rect_w a) ∧
   (0 < rect_h a ∧ 0 < rect_h b ∧ top a < top b + rect_h b ∧ top b < top a + rect_h a))%Z.
Proof.
  intros. unfold Rect_colliderect.
  destruct (Z.eqb_spec (rect_w a) 0), (Z.eqb_spec (rect_h a) 0),
    (Z.eqb_spec (rect_w b) 0), (Z.eqb_spec (rect_h b) 0); simpl;
    try (split; [done|lia]).
  rewrite !andb_true_iff, !Z.ltb_lt. lia.
Qed.

Lemma whole_inject (q : Q) : whole q → (q == inject_Z (Qfloor q))%Q.
Proof. unfold whole. intros H. by symmetry. Qed.

Lemma whole_nonneg (q : Q) : (0 <= q)%Q → (0 ≤ Qfloor q)%Z.
Proof. intros H. apply (Qfloor_resp_le 0 q) in H. exact H. Qed.

Lemma far_edge_whole (x ext : Q) :
  whole (x - ext / 2) → whole ext →
  (x + ext / 2 == inject_Z (Qfloor (x - ext / 2) + Qfloor ext))%Q.
Proof.
  intros H1 H2. rewrite inject_Z_plus.
  rewrite <- (whole_inject _ H1), <- (whole_inject _ H2). field.
Qed.

Lemma collision_rect_overlap (pos1 size1 pos2 size2 : Q * Q) :
  pixel_aligned pos1 size1 → pixel_aligned pos2 size2 →
  Rect_colliderect (collision_rect pos1 size1) (collision_rect pos2 size2) = true
  ↔ boxes_overlap pos1 size1 pos2 size2.
Proof.
  intros (Hx1 & Hy1 & Hw1 & Hh1 & Pw1 & Ph1) (Hx2 & Hy2 & Hw2 & Hh2 & Pw2 & Ph2).
  unfold boxes_overlap.
  rewrite (intervals_overlap_whole _ _ _ _ _ _ _ _
             (whole_inject _ Hx1) (far_edge_whole _ _ Hx1 Hw1)
             (whole_inject _ Hx2) (far_edge_whole _ _ Hx2 Hw2)).
  rewrite (intervals_overlap_whole _ _ _ _ _ _ _ _
             (whole_inject _ Hy1) (far_edge_whole _ _ Hy1 Hh1)
             (whole_inject _ Hy2) (far_edge_whole _ _ Hy2 Hh2)).
  rewrite Rect_colliderect_nonneg; unfold collision_rect, pygame_Rect; simpl;
    rewrite ?py_int_whole by done; try by apply whole_nonneg.
  done.
Qed.

Lemma box_of_Some (e : ref) (w : World) (pos size : Q * Q) :
  box_of e w = Some (pos, size) →
  ∃ t c, Entity_get_component "transform" e w = Some t ∧
         Entity_get_component "collision" e w = Some c ∧
         attr_position (comps w t) = Some pos ∧ attr_size (comps w c) = Some size.
Proof.
  unfold box_of. intros H.
  destruct (Entity_get_component "transform" e w) as [t|]; [|done].
  destruct (Entity_get_component "collision" e w) as [c|]; [|done].
  simpl in H.
  destruct (attr_position (comps w t)) as [p|] eqn:Ep; [|done].
  destruct (attr_size (comps w c)) as [s|] eqn:Es; [|done].
  simpl in H. injection H as -> ->. by exists t, c.
Qed.

(** C4 (as amended). Narrow phase: for two entities with transform and
    collision components whose boxes have whole-number corners and
    non-negative whole-number extents, [check_collision] returns true if and
    only if the open rectangles position ± half extent overlap on both axes;
    boxes that only touch do not collide. *)
Theorem check_collision_pixel_aligned
    (e1 e2 : ref) (w : World) (g : SpatialGrid) (pos1 size1 pos2 size2 : Q * Q) :
  box_of e1 w = Some (pos1, size1) →
  box_of e2 w = Some (pos2, size2) →
  pixel_aligned pos1 size1 →
  pixel_aligned pos2 size2 →
  ∃ b g', SpatialGrid_check_collision e1 e2 w g = Some (b, g') ∧
          (b = true ↔ boxes_overlap pos1 size1 pos2 size2).
Proof.
  intros (t1 & c1 & Ht1 & Hc1 & Hp1 & Hs1)%box_of_Some
         (t2 & c2 & Ht2 & Hc2 & Hp2 & Hs2)%box_of_Some A1 A2.
  unfold SpatialGrid_check_collision.
  rewrite Ht1, Hc1, Ht2, Hc2, Hp1, Hs1, Hp2, Hs2. simpl.
  eexists _, _. split; [reflexivity|]. by apply collision_rect_overlap.
Qed.

Lemma whole_Z (z : Z) : whole (inject_Z z).
Proof. unfold whole. by rewrite Qfloor_Z. Qed.

(** The edge case of the specification: 10×10 boxes centred at (0,0) and
    (10,0) touch and do not collide. *)
Lemma check_collision_pixel_aligned_witness :
  ∃ b g', SpatialGrid_check_collision 0%nat 1%nat
            (two_boxes (0, 0) (10, 10) (10, 0) (10, 10))%Q small_grid = Some (b, g') ∧
          (b = true ↔ boxes_overlap (0, 0) (10, 10) (10, 0) (10, 10))%Q.
Proof.
  apply (check_collision_pixel_aligned 0%nat 1%nat
           (two_boxes (0, 0) (10, 10) (10, 0) (10, 10))%Q small_grid).
  - reflexivity.
  - reflexivity.
  - repeat split; vm_compute; congruence.
  - repeat split; vm_compute; congruence.
Defined.

Example check_collision_touching :
  fst <$> SpatialGrid_check_collision 0%nat 1%nat
            (two_boxes (0, 0) (10, 10) (10, 0) (10, 10))%Q small_grid = Some false.
Proof. reflexivity. Qed.

Example check_collision_first_moved :
  fst <$> SpatialGrid_check_collision 0%nat 1%nat
            (two_boxes (1, 0) (10, 10) (10, 0) (10, 10))%Q small_grid = Some true.
Proof. reflexivity. Qed.

Example check_collision_second_moved :
  fst <$> SpatialGrid_check_collision 0%nat 1%nat
            (two_boxes (0, 0) (10, 10) (9, 0) (10, 10))%Q small_grid = Some true.
Proof. reflexivity. Qed.

(** C4 as stated fails: 1×1 boxes centred at (3/4, 0) and (3/2, 0) overlap
    as open rectangles, on (1, 5/4) × (-1/2, 1/2), but the rectangles the
    code compares are truncated to whole pixels, [0,1) and [1,2) along x,
    and the answer is false. *)
Lemma check_collision_truncates :
  ¬ (∀ (e1 e2 : ref) (w : World) (g : SpatialGrid) (pos1 size1 pos2 size2 : Q * Q),
       box_of e1 w = Some (pos1, size1) →
       box_of e2 w = Some (pos2, size2) →
       ∃ b g', SpatialGrid_check_collision e1 e2 w g = Some (b, g') ∧
               (b = true ↔ boxes_overlap pos1 size1 pos2 size2)).
Proof.
  intros H.
  destruct (H 0%nat 1%nat (two_boxes (3 # 4, 0) (1, 1) (3 # 2, 0) (1, 1))%Q small_grid
              _ _ _ _ eq_refl eq_refl) as (b & g' & Hrun & Hiff).
  vm_compute in Hrun. injection Hrun as <- _.
  enough (false = true) by done. apply Hiff.
  repeat split; vm_compute; reflexivity.
Qed.

(** Truncation also makes boxes of odd size collide when they only touch:
    5×5 boxes centred at (0,0) and (5,0) meet at x = 5/2. *)
Example check_collision_odd_size_touching :
  fst <$> SpatialGrid_check_collision 0%nat 1%nat
            (two_boxes (0, 0) (5, 5) (5, 0) (5, 5))%Q small_grid = Some true.
Proof. reflexivity. Qed.

(** * Python dictionaries *)

Section dict_facts.
Context {K V : Type} `{EqDecision K}.
Implicit Types (d : list (K * V)) (k : K) (v : V).

Lemma dict_get_set_eq d k v : dict_get (dict_set d k v) k = Some v.
Proof.
  induction d as [|[k' v'] d IH]; simpl.
  - by rewrite decide_True.
  - destruct (decide (k = k')); simpl.
    + by rewrite decide_True.
    + by rewrite decide_False.
Qed.

Lemma dict_get_set_ne d k k' v : k ≠ k' → dict_get (dict_set d k v) k' = dict_get d k'.
Proof.
  intros Hne. induction d as [|[k0 v0] d IH]; simpl.
  - by rewrite decide_False.
  - destruct (decide (k = k0)) as [->|]; simpl.
    + by rewrite !decide_False.
    + destruct (decide (k' = k0)); [done|apply IH].
Qed.

Lemma dict_get_del_eq d k : dict_get (dict_del d k) k = None.
Proof.
  induction d as [|[k' v'] d IH]; simpl; [done|].
  destruct (decide (k = k')); simpl; [done|]. by rewrite decide_False.
Qed.

Lemma dict_get_del_ne d k k' : k ≠ k' → dict_get (dict_del d k) k' = dict_get d k'.
Proof.
  intros Hne. induction d as [|[k0 v0] d IH]; simpl; [done|].
  destruct (decide (k = k0)) as [->|]; simpl.
  - by rewrite decide_False.
  - destruct (decide (k' = k0)); [done|apply IH].
Qed.

Lemma dict_get_elem d k v : dict_get d k = Some v → (k, v) ∈ d.
Proof.
  induction d as [|[k' v'] d IH]; simpl; [done|].
  destruct (decide (k = k')) as [->|].
  - intros [= ->]. apply elem_of_cons. by left.
  - intros H'. apply elem_of_cons. right. by apply IH.
Qed.

Lemma dict_elem_get d k v : NoDup (dict_keys d) → (k, v) ∈ d → dict_get d k = Some v.
Proof.
  induction d as [|[k' v'] d IH]; simpl; [by intros _ ?%elem_of_nil|].
  intros [Hk Hd]%NoDup_cons [E|Hin]%elem_of_cons.
  - injection E as -> ->. by rewrite decide_True.
  - destruct (decide (k = k')) as [->|]; [|by apply IH].
    destruct Hk. apply (list_elem_of_fmap_2 fst) in Hin. exact Hin.
Qed.

Lemma dict_values_elem d v : v ∈ dict_values d → ∃ k, (k, v) ∈ d.
Proof.
  unfold dict_values. intros ([k v'] & -> & Hin)%list_elem_of_fmap. by exists k.
Qed.

Lemma dict_set_elem d k v k' v' :
  (k', v') ∈ dict_set d k v → (k' = k ∧ v' = v) ∨ (k', v') ∈ d.
Proof.
  induction d as [|[k0 v0] d IH]; simpl.
  - intros [= -> ->]%list_elem_of_singleton. by left.
  - destruct (decide (k = k0)) as [->|].
    + intros [[= -> ->]|Hin]%elem_of_cons; [by left|].
      right. apply elem_of_cons. by right.
    + intros [E|Hin]%elem_of_cons.
      * right. apply elem_of_cons. by left.
      * destruct (IH Hin) as [?|?]; [by left|]. right. apply elem_of_cons. by right.
Qed.

Lemma dict_set_keys d k v k' : k' ∈ dict_keys (dict_set d k v) → k' = k ∨ k' ∈ dict_keys d.
Proof.
  unfold dict_keys. intros ([k0 v0] & -> & Hin)%list_elem_of_fmap. simpl.
  destruct (dict_set_elem _ _ _ _ _ Hin) as [[-> _]|Hin']; [by left|].
  right. by apply (list_elem_of_fmap_2 fst) in Hin'.
Qed.

Lemma dict_set_NoDup d k v : NoDup (dict_keys d) → NoDup (dict_keys (dict_set d k v)).
Proof.
  induction d as [|[k0 v0] d IH]; simpl.
  - intros _. apply NoDup_singleton.
  - intros [Hk Hd]%NoDup_cons. destruct (decide (k = k0)) as [->|Hne]; simpl.
    + by apply NoDup_cons.
    + apply NoDup_cons. split; [|by apply IH].
      intros [->|Hin]%dict_set_keys; [done|by apply Hk].
Qed.

Lemma dict_del_elem d k k' v' : (k', v') ∈ dict_del d k → (k', v') ∈ d.
Proof.
  induction d as [|[k0 v0] d IH]; simpl; [done|].
  destruct (decide (k = k0)).
  - intros Hin. apply elem_of_cons. right. by apply IH.
  - intros [E|Hin]%elem_of_cons; apply elem_of_cons; [by left|right; by apply IH].
Qed.

Lemma dict_del_NoDup d k : NoDup (dict_keys d) → NoDup (dict_keys (dict_del d k)).
Proof.
  induction d as [|[k0 v0] d IH]; simpl; [done|].
  intros [Hk Hd]%NoDup_cons. destruct (decide (k = k0)); [by apply IH|].
  simpl. apply NoDup_cons. split; [|by apply IH].
  intros ([k1 v1] & E & Hin)%list_elem_of_fmap. simpl in E. subst k1.
  apply Hk. apply dict_del_elem in Hin. by apply (list_elem_of_fmap_2 fst) in Hin.
Qed.

Lemma dict_has_true d k : dict_has d k = true ↔ is_Some (dict_get d k).
Proof.
  unfold dict_has. by destruct (dict_get d k).
Qed.
End dict_facts.

(** * The tag index *)

Section index_facts.
Implicit Types (idx : gmap string (gset string)) (tag id : string).

Lemma lists_index_add idx tag id tag' id' :
  lists (index_add idx tag id) tag' id' ↔ lists idx tag' id' ∨ (tag' = tag ∧ id' = id).
Proof.
  unfold lists, index_add. destruct (decide (tag = tag')) as [->|Hne].
  - rewrite lookup_insert_eq. simpl. set_solver.
  - rewrite lookup_insert_ne by done. naive_solver.
Qed.

Lemma lists_index_discard idx tag id tag' id' :
  lists (index_discard idx tag id) tag' id' ↔ lists idx tag' id' ∧ ¬ (tag' = tag ∧ id' = id).
Proof.
  unfold lists, index_discard. destruct (idx !! tag) as [s|] eqn:E.
  - destruct (decide (s ∖ {[id]} = ∅)) as [He|He].
    + destruct (decide (tag = tag')) as [->|Hne].
      * rewrite lookup_delete_eq, E. simpl. set_solver.
      * rewrite lookup_delete_ne by done. naive_solver.
    + destruct (decide (tag = tag')) as [->|Hne].
      * rewrite lookup_insert_eq, E. simpl. set_solver.
      * rewrite lookup_insert_ne by done. naive_solver.
  - destruct (decide (tag = tag')) as [->|Hne].
    + rewrite E. simpl. set_solver.
    + naive_solver.
Qed.

Lemma lists_fold_add idx (tgs : list string) id tag' id' :
  lists (fold_left (λ idx tag, index_add idx tag id) tgs idx) tag' id'
  ↔ lists idx tag' id' ∨ (tag' ∈ tgs ∧ id' = id).
Proof.
  revert idx. induction tgs as [|t tgs IH]; intros idx; simpl.
  - set_solver.
  - rewrite IH, lists_index_add. set_solver.
Qed.

Lemma lists_fold_discard idx (tgs : list string) id tag' id' :
  lists (fold_left (λ idx tag, index_discard idx tag id) tgs idx) tag' id'
  ↔ lists idx tag' id' ∧ ¬ (tag' ∈ tgs ∧ id' = id).
Proof.
  revert idx. induction tgs as [|t tgs IH]; intros idx; simpl.
  - set_solver.
  - rewrite IH, lists_index_discard. set_solver.
Qed.
End index_facts.

(** * What an update pass leaves alone *)

Lemma fold_left_rel {A B} (R : A → A → Prop) (f : A → B → A) (l : list B) (a : A) :
  (∀ a, R a a) → (∀ a b c, R a b → R b c → R a c) → (∀ a b, R a (f a b)) →
  R a (fold_left f l a).
Proof.
  intros Hrefl Htrans Hstep. revert a. induction l as [|b l IH]; intros a; simpl.
  - apply Hrefl.
  - eapply Htrans; [apply Hstep|apply IH].
Qed.

Lemma steady_refl (w : World) : steady w w.
Proof. by repeat split. Qed.

Lemma steady_trans (w1 w2 w3 : World) : steady w1 w2 → steady w2 w3 → steady w1 w3.
Proof.
  intros (A1 & B1 & C1 & D1) (A2 & B2 & C2 & D2). repeat split.
  - by rewrite A2.
  - by rewrite B2.
  - intros e. by rewrite C2.
  - intros id Hin. by apply D2, D1.
Qed.

Lemma same_tags_refl (w : World) : same_tags w w.
Proof. by intros e. Qed.

Lemma same_tags_trans (w1 w2 w3 : World) :
  same_tags w1 w2 → same_tags w2 w3 → same_tags w1 w3.
Proof. intros H1 H2 e. by rewrite H2. Qed.

Lemma set_entity_steady (w : World) (e : ref) (v : Entity) :
  entity_id v = entity_id (ents w e) → steady w (set_entity w e v).
Proof.
  intros Hid. repeat split; try done.
  intros e'. simpl. unfold upd. by case_decide; subst.
Qed.

Lemma set_entity_same_tags (w : World) (e : ref) (v : Entity) :
  tags v = tags (ents w e) → same_tags w (set_entity w e v).
Proof. intros Ht e'. simpl. unfold upd. by case_decide; subst. Qed.

Lemma set_component_steady (w : World) (c : cref) (v : Component) :
  steady w (set_component w c v).
Proof. by repeat split. Qed.

Lemma set_component_same_tags (w : World) (c : cref) (v : Component) :
  same_tags w (set_component w c v).
Proof. by intros e. Qed.

Lemma Entity_destroy_steady (e : ref) (w : World) : steady w (Entity_destroy e w).
Proof.
  unfold Entity_destroy. rewrite fold_on_remove.
  set (w1 := set_entity w e (with_marked (ents w e) true)).
  set (w2 := set_entity w1 e (with_active (ents w1 e) false)).
  apply (steady_trans _ w1); [by apply set_entity_steady|].
  apply (steady_trans _ w2); by apply set_entity_steady.
Qed.

Lemma Entity_destroy_same_tags (e : ref) (w : World) : same_tags w (Entity_destroy e w).
Proof.
  unfold Entity_destroy. rewrite fold_on_remove.
  set (w1 := set_entity w e (with_marked (ents w e) true)).
  set (w2 := set_entity w1 e (with_active (ents w1 e) false)).
  apply (same_tags_trans _ w1); [by apply set_entity_same_tags|].
  apply (same_tags_trans _ w2); by apply set_entity_same_tags.
Qed.

Lemma Entity_remove_component_steady (ct : string) (e : ref) (w : World) :
  steady w (Entity_remove_component ct e w).1.
Proof.
  unfold Entity_remove_component. destruct (dict_get _ ct); [|apply steady_refl].
  unfold Component_on_remove. simpl.
  apply (steady_trans _ (set_entity w e
           (with_components (ents w e) (dict_del (components (ents w e)) ct)))).
  - by apply set_entity_steady.
  - apply set_component_steady.
Qed.

Lemma Entity_remove_component_same_tags (ct : string) (e : ref) (w : World) :
  same_tags w (Entity_remove_component ct e w).1.
Proof.
  unfold Entity_remove_component. destruct (dict_get _ ct); [|apply same_tags_refl].
  unfold Component_on_remove. simpl.
  apply (same_tags_trans _ (set_entity w e
           (with_components (ents w e) (dict_del (components (ents w e)) ct)))).
  - by apply set_entity_same_tags.
  - apply set_component_same_tags.
Qed.

Lemma Entity_add_component_steady (c : cref) (e : ref) (w : World) :
  steady w (Entity_add_component c e w).
Proof.
  unfold Entity_add_component, Component_on_add.
  set (w1 := if Entity_has_component _ e w then _ else w).
  assert (H1 : steady w w1).
  { subst w1. destruct (Entity_has_component _ e w);
      [apply Entity_remove_component_steady|apply steady_refl]. }
  eapply steady_trans; [exact H1|].
  eapply steady_trans; [|apply set_component_steady].
  by apply set_entity_steady.
Qed.

Lemma Entity_add_component_same_tags (c : cref) (e : ref) (w : World) :
  same_tags w (Entity_add_component c e w).
Proof.
  unfold Entity_add_component, Component_on_add.
  set (w1 := if Entity_has_component _ e w then _ else w).
  assert (H1 : same_tags w w1).
  { subst w1. destruct (Entity_has_component _ e w);
      [apply Entity_remove_component_same_tags|apply same_tags_refl]. }
  eapply same_tags_trans; [exact H1|].
  eapply same_tags_trans; [|apply set_component_same_tags].
  by apply set_entity_same_tags.
Qed.

Lemma EntityManager_remove_entity_steady (id : string) (w : World) :
  steady w (EntityManager_remove_entity id w).
Proof.
  unfold EntityManager_remove_entity. destruct (dict_has _ id); [|apply steady_refl].
  repeat split; try done. intros id' Hin. simpl. apply elem_of_app. by left.
Qed.

Lemma run_call_steady (w : World) (k : Call) : steady w (run_call w k).
Proof.
  destruct k; simpl.
  - apply Entity_destroy_steady.
  - by apply set_entity_steady.
  - unfold Entity_add_tag. destruct (list_has _ _); [apply steady_refl|].
    by apply set_entity_steady.
  - unfold Entity_remove_tag. destruct (list_has _ _); [|apply steady_refl].
    by apply set_entity_steady.
  - apply Entity_add_component_steady.
  - apply Entity_remove_component_steady.
  - apply set_component_steady.
  - apply set_component_steady.
  - by repeat split.
  - apply EntityManager_remove_entity_steady.
Qed.

Lemma run_call_same_tags (w : World) (k : Call) :
  changes_tags k = false → same_tags w (run_call w k).
Proof.
  destruct k; simpl; try done; intros _.
  - apply Entity_destroy_same_tags.
  - by apply set_entity_same_tags.
  - apply Entity_add_component_same_tags.
  - apply Entity_remove_component_same_tags.
  - unfold EntityManager_remove_entity. by destruct (dict_has _ _).
Qed.

Section UpdateFacts.
Variable behaviour : cref → Q → World → list Call.

Lemma Component_update_steady dt c w : steady w (Component_update behaviour dt c w).
Proof.
  unfold Component_update.
  apply fold_left_rel; [apply steady_refl|apply steady_trans|apply run_call_steady].
Qed.

Lemma Entity_update_steady dt e w : steady w (Entity_update behaviour dt e w).
Proof.
  unfold Entity_update. destruct (negb _); [apply steady_refl|].
  apply fold_left_rel; [apply steady_refl|apply steady_trans|].
  intros w' c. destruct (enabled _); [apply Component_update_steady|apply steady_refl].
Qed.

Lemma EntityManager_update_entity_rel dt st e :
  turn_rel st (EntityManager_update_entity behaviour dt st e).
Proof.
  unfold EntityManager_update_entity, turn_rel.
  set (st1 := if _ : bool then _ else st).
  assert (H1 : steady st.1 st1.1 ∧ ∀ e', e' ∈ st.2 → e' ∈ st1.2).
  { subst st1. destruct (_ && _); simpl.
    - split; [apply Entity_update_steady|]. intros e' ?. apply elem_of_app. by left.
    - split; [apply steady_refl|done]. }
  destruct H1 as [H1 H2]. clearbody st1. simpl. split; [|exact H2].
  destruct (marked_for_destruction _); [|exact H1].
  eapply steady_trans; [exact H1|apply EntityManager_remove_entity_steady].
Qed.

Lemma EntityManager_update_pass_rel dt l st :
  turn_rel st (fold_left (EntityManager_update_entity behaviour dt) l st).
Proof.
  apply fold_left_rel.
  - intros a. split; [apply steady_refl|done].
  - intros a b c [A1 A2] [B1 B2]. split; [by eapply steady_trans|]. intros e ?. by apply B2, A2.
  - intros a b. apply EntityManager_update_entity_rel.
Qed.

Lemma EntityManager_update_pass_steady dt l w :
  steady w (EntityManager_update_pass behaviour dt l w).1.
Proof. apply (EntityManager_update_pass_rel dt l (w, [])). Qed.

Hypothesis Hkeeps : keeps_tags behaviour.

Lemma Component_update_same_tags dt c w : same_tags w (Component_update behaviour dt c w).
Proof.
  unfold Component_update.
  assert (H : ∀ k, k ∈ behaviour c dt w → changes_tags k = false) by (intros; by eapply Hkeeps).
  revert H. generalize (behaviour c dt w) as l. intros l. revert w.
  induction l as [|k l IH]; intros w H; simpl; [apply same_tags_refl|].
  eapply same_tags_trans.
  - apply run_call_same_tags. apply H. apply elem_of_cons. by left.
  - apply IH. intros k' Hk'. apply H. apply elem_of_cons. by right.
Qed.

Lemma Entity_update_same_tags dt e w : same_tags w (Entity_update behaviour dt e w).
Proof.
  unfold Entity_update. destruct (negb _); [apply same_tags_refl|].
  apply fold_left_rel; [apply same_tags_refl|apply same_tags_trans|].
  intros w' c. destruct (enabled _); [apply Component_update_same_tags|apply same_tags_refl].
Qed.

Lemma EntityManager_update_pass_same_tags dt l w :
  same_tags w (EntityManager_update_pass behaviour dt l w).1.
Proof.
  unfold EntityManager_update_pass.
  apply (fold_left_rel (λ st st' : World * list ref, same_tags st.1 st'.1)).
  - intros a. apply same_tags_refl.
  - intros a b c. apply same_tags_trans.
  - intros st e. unfold EntityManager_update_entity. simpl.
    set (st1 := if _ : bool then _ else st).
    assert (H1 : same_tags st.1 st1.1).
    { subst st1. destruct (_ && _); [apply Entity_update_same_tags|apply same_tags_refl]. }
    clearbody st1. destruct (marked_for_destruction _); [|exact H1].
    eapply same_tags_trans; [exact H1|].
    unfold EntityManager_remove_entity. by destruct (dict_has _ _).
Qed.
End UpdateFacts.

(** * Flushing the queues *)

Section flush_facts.
Variable w : World.
Implicit Types (m : EntityManager) (e : ref) (id tag : string).

Lemma add_one_entities m e :
  entities (EntityManager_add_one w m e) = dict_set (entities m) (entity_id (ents w e)) e.
Proof. done. Qed.

Lemma add_one_lists m e tag id :
  lists (tag_index (EntityManager_add_one w m e)) tag id
  ↔ lists (tag_index m) tag id ∨ (tag ∈ tags (ents w e) ∧ id = entity_id (ents w e)).
Proof. unfold EntityManager_add_one. simpl. apply lists_fold_add. Qed.

Lemma remove_one_get m id id' :
  dict_get (entities (EntityManager_remove_one w m id)) id'
  = if decide (id = id') then None else dict_get (entities m) id'.
Proof.
  unfold EntityManager_remove_one. destruct (dict_get (entities m) id) as [e|] eqn:E; simpl.
  - case_decide as Hd; [subst; apply dict_get_del_eq|by apply dict_get_del_ne].
  - case_decide as Hd; [by subst|done].
Qed.

Lemma remove_one_elem m id k e :
  (k, e) ∈ entities (EntityManager_remove_one w m id) → (k, e) ∈ entities m.
Proof.
  unfold EntityManager_remove_one. destruct (dict_get (entities m) id); [|done].
  simpl. apply dict_del_elem.
Qed.

Lemma remove_one_lists m id tag id' :
  lists (tag_index (EntityManager_remove_one w m id)) tag id'
  ↔ lists (tag_index m) tag id' ∧
    ¬ (id' = id ∧ ∃ e, dict_get (entities m) id = Some e ∧ tag ∈ tags (ents w e)).
Proof.
  unfold EntityManager_remove_one. destruct (dict_get (entities m) id) as [e|] eqn:E; simpl.
  - rewrite lists_fold_discard. split.
    + intros [H1 H2]. split; [done|]. intros [-> (e' & [= <-] & Ht)]. by apply H2.
    + intros [H1 H2]. split; [done|]. intros [Ht ->]. apply H2. split; [done|]. by exists e.
  - split; [|by intros [? _]]. intros H1. split; [done|]. by intros [_ (e' & [=] & _)].
Qed.

(** Removals of other ids leave an entry and its index entries alone. *)
Lemma remove_fold_other (l : list string) m id :
  id ∉ l →
  dict_get (entities (fold_left (EntityManager_remove_one w) l m)) id
  = dict_get (entities m) id ∧
  ∀ tag, lists (tag_index m) tag id →
         lists (tag_index (fold_left (EntityManager_remove_one w) l m)) tag id.
Proof.
  revert m. induction l as [|id0 l IH]; intros m Hid; simpl; [done|].
  apply not_elem_of_cons in Hid as [Hne Hid].
  destruct (IH (EntityManager_remove_one w m id0) Hid) as [IH1 IH2]. split.
  - rewrite IH1, remove_one_get. by rewrite decide_False.
  - intros tag Ht. apply IH2. apply remove_one_lists. split; [done|]. by intros [? _].
Qed.

Lemma remove_fold_elem (l : list string) m k e :
  (k, e) ∈ entities (fold_left (EntityManager_remove_one w) l m) → (k, e) ∈ entities m.
Proof.
  revert m. induction l as [|id0 l IH]; intros m; simpl; [done|].
  intros H. eapply remove_one_elem. by apply IH.
Qed.

Lemma remove_fold_lists (l : list string) m tag id :
  lists (tag_index (fold_left (EntityManager_remove_one w) l m)) tag id →
  lists (tag_index m) tag id.
Proof.
  revert m. induction l as [|id0 l IH]; intros m; simpl; [done|].
  intros H. apply IH in H. by apply remove_one_lists in H as [? _].
Qed.

Lemma removed_remove_one r m id : removed w r m → removed w r (EntityManager_remove_one w m id).
Proof.
  intros [H1 H2]. split.
  - rewrite remove_one_get. by case_decide.
  - intros tag Ht Hl. apply remove_one_lists in Hl as [Hl _]. by eapply H2.
Qed.

Lemma removed_fold r (l : list string) m :
  removed w r m → removed w r (fold_left (EntityManager_remove_one w) l m).
Proof.
  revert m. induction l as [|id0 l IH]; intros m H; simpl; [done|].
  by apply IH, removed_remove_one.
Qed.

Lemma remove_one_removed r m :
  dict_get (entities m) (entity_id (ents w r)) = Some r →
  removed w r (EntityManager_remove_one w m (entity_id (ents w r))).
Proof.
  intros Hr. split.
  - rewrite remove_one_get. by rewrite decide_True.
  - intros tag Ht Hl. apply remove_one_lists in Hl as [_ Hl]. apply Hl.
    split; [done|]. by exists r.
Qed.

Lemma remove_fold_removed r (l : list string) m :
  entity_id (ents w r) ∈ l →
  dict_get (entities m) (entity_id (ents w r)) = Some r ∨ removed w r m →
  removed w r (fold_left (EntityManager_remove_one w) l m).
Proof.
  revert m. induction l as [|id0 l IH]; intros m Hin Hm; simpl.
  - by apply elem_of_nil in Hin.
  - destruct (decide (id0 = entity_id (ents w r))) as [->|Hne].
    + apply removed_fold. destruct Hm as [Hm|Hm];
        [by apply remove_one_removed|by apply removed_remove_one].
    + apply IH.
      * apply elem_of_cons in Hin as [?|?]; [by subst|done].
      * destruct Hm as [Hm|Hm]; [left|right; by apply removed_remove_one].
        rewrite remove_one_get. by rewrite decide_False.
Qed.

(** Additions keep the table a dictionary keyed by entity ids. *)
Lemma add_fold_table_ok (l : list ref) m :
  NoDup (dict_keys (entities m)) →
  (∀ k e, (k, e) ∈ entities m → entity_id (ents w e) = k) →
  NoDup (dict_keys (entities (fold_left (EntityManager_add_one w) l m))) ∧
  (∀ k e, (k, e) ∈ entities (fold_left (EntityManager_add_one w) l m) →
          entity_id (ents w e) = k).
Proof.
  revert m. induction l as [|e0 l IH]; intros m H1 H2; cbn [fold_left]; [done|].
  apply IH.
  - rewrite add_one_entities. by apply dict_set_NoDup.
  - intros k e. rewrite add_one_entities. intros [[-> ->]|Hin]%dict_set_elem; [done|].
    by apply H2.
Qed.

(** The entity added last is in the table and in the sets of its tags. *)
Lemma add_fold_last (l : list ref) m e :
  let m' := fold_left (EntityManager_add_one w) (l ++ [e]) m in
  dict_get (entities m') (entity_id (ents w e)) = Some e ∧
  ∀ tag, tag ∈ tags (ents w e) → lists (tag_index m') tag (entity_id (ents w e)).
Proof.
  intros m'. subst m'. rewrite fold_left_app. cbn [fold_left]. split.
  - rewrite add_one_entities. apply dict_get_set_eq.
  - intros tag Ht. apply add_one_lists. by right.
Qed.
End flush_facts.

(** An entity flushed in stays in the table and the index while no entity
    of the same id follows it in the pending list. *)
Lemma add_fold_keeps (w : World) (l : list ref) (m : EntityManager) (e : ref) :
  (∀ e', e' ∈ l → entity_id (ents w e') = entity_id (ents w e) → e' = e) →
  dict_get (entities m) (entity_id (ents w e)) = Some e ∧
  (∀ tag, tag ∈ tags (ents w e) → lists (tag_index m) tag (entity_id (ents w e))) →
  dict_get (entities (fold_left (EntityManager_add_one w) l m)) (entity_id (ents w e)) = Some e ∧
  (∀ tag, tag ∈ tags (ents w e) →
          lists (tag_index (fold_left (EntityManager_add_one w) l m)) tag (entity_id (ents w e))).
Proof.
  revert m. induction l as [|e0 l IH]; intros m Hl Hm; cbn [fold_left]; [done|].
  apply IH; [intros e' ?; apply Hl, elem_of_cons; by right|].
  destruct Hm as [Hm1 Hm2]. split.
  - rewrite add_one_entities.
    destruct (decide (entity_id (ents w e0) = entity_id (ents w e))) as [E|Hne].
    + rewrite E, dict_get_set_eq. f_equal. apply Hl; [apply elem_of_cons; by left|done].
    + by rewrite dict_get_set_ne.
  - intros tag Ht. apply add_one_lists. left. by apply Hm2.
Qed.

Lemma add_fold_member (w : World) (l : list ref) (m : EntityManager) (e : ref) :
  e ∈ l →
  (∀ e', e' ∈ l → entity_id (ents w e') = entity_id (ents w e) → e' = e) →
  dict_get (entities (fold_left (EntityManager_add_one w) l m)) (entity_id (ents w e)) = Some e ∧
  (∀ tag, tag ∈ tags (ents w e) →
          lists (tag_index (fold_left (EntityManager_add_one w) l m)) tag (entity_id (ents w e))).
Proof.
  revert m. induction l as [|e0 l IH]; intros m Hin Hl; [by apply elem_of_nil in Hin|].
  cbn [fold_left]. destruct (decide (e0 = e)) as [->|Hne].
  - apply add_fold_keeps; [intros e' ?; apply Hl, elem_of_cons; by right|]. split.
    + rewrite add_one_entities. apply dict_get_set_eq.
    + intros tag Ht. apply add_one_lists. by right.
  - apply IH.
    + apply elem_of_cons in Hin as [?|?]; [by subst|done].
    + intros e' ?. apply Hl, elem_of_cons. by right.
Qed.

Lemma dict_elem_is_Some {K V} `{EqDecision K} (d : list (K * V)) k v :
  (k, v) ∈ d → is_Some (dict_get d k).
Proof.
  induction d as [|[k' v'] d IH]; simpl; [by intros ?%elem_of_nil|].
  intros [E|Hin]%elem_of_cons; destruct (decide (k = k')); try done.
  - injection E as -> ->. done.
  - by apply IH.
Qed.

Lemma process_additions_table_ok (w : World) :
  table_ok w → table_ok (EntityManager_process_entity_additions w).
Proof.
  intros [H1 H2]. unfold table_ok, EntityManager_process_entity_additions. simpl.
  by apply add_fold_table_ok.
Qed.

Lemma get_entities_with_tag_elem (tag : string) (w : World) (e : ref) :
  e ∈ EntityManager_get_entities_with_tag tag w
  ↔ ∃ id, index_lists w tag id ∧ EntityManager_get_entity id w = Some e.
Proof.
  unfold EntityManager_get_entities_with_tag, index_lists, lists, EntityManager_get_entity.
  rewrite list_elem_of_omap. by setoid_rewrite elem_of_elements.
Qed.

(** * The entity manager *)

(** What collaborator code does to the pending list: it only appends. *)
Lemma run_call_pending (w : World) (k : Call) :
  ∃ later, entities_to_add (manager (run_call w k)) = entities_to_add (manager w) ++ later.
Proof.
  destruct k; simpl; try (exists []; by rewrite app_nil_r).
  - unfold Entity_destroy. rewrite fold_on_remove. exists []. by rewrite app_nil_r.
  - unfold Entity_add_tag. destruct (list_has _ _); exists []; by rewrite app_nil_r.
  - unfold Entity_remove_tag. destruct (list_has _ _); exists []; by rewrite app_nil_r.
  - unfold Entity_add_component, Component_on_add, Entity_remove_component.
    destruct (Entity_has_component _ _ _); [destruct (dict_get _ _)|];
      exists []; by rewrite app_nil_r.
  - unfold Entity_remove_component. destruct (dict_get _ _); exists []; by rewrite app_nil_r.
  - by exists [e].
  - unfold EntityManager_remove_entity. destruct (dict_has _ _); exists []; by rewrite app_nil_r.
Qed.

Lemma run_calls_pending (ks : list Call) (w : World) :
  ∃ later, entities_to_add (manager (fold_left run_call ks w))
           = entities_to_add (manager w) ++ later.
Proof.
  revert w. induction ks as [|k ks IH]; intros w; simpl.
  - exists []. by rewrite app_nil_r.
  - destruct (IH (run_call w k)) as [p2 ->]. destruct (run_call_pending w k) as [p1 ->].
    exists (p1 ++ p2). by rewrite app_assoc.
Qed.

Lemma run_calls_steady (ks : list Call) (w : World) : steady w (fold_left run_call ks w).
Proof. apply fold_left_rel; [apply steady_refl|apply steady_trans|apply run_call_steady]. Qed.

(** C1 (as amended). Deferred add visibility: an entity [e] that is not in
    the table is not returned by [get_entities_with_tag] after
    [add_entity(e)], whatever is called ([ks]) before the next
    [update(dt)], and it is still pending then.  After that [update(dt)] it
    is returned under each tag it carries when the call starts, unless an
    entity submitted after it has the same id (and takes its place in the
    table) or its id is in the removal queue when the call processes the
    removals (it was marked for destruction when the update pass visited
    it, or [remove_entity] was called with its id). *)
Theorem deferred_add_visibility
    (behaviour : cref → Q → World → list Call) (dt : Q)
    (e : ref) (tag : string) (w : World) (ks : list Call) :
  let w' := fold_left run_call ks (EntityManager_add_entity e w) in
  (∀ id, EntityManager_get_entity id w ≠ Some e) →
  (e ∉ EntityManager_get_entities_with_tag tag w') ∧
  (∃ later, entities_to_add (manager w') = entities_to_add (manager w) ++ e :: later) ∧
  (∀ earlier later,
     entities_to_add (manager w') = earlier ++ e :: later →
     (∀ e', e' ∈ later → entity_id (ents w' e') = entity_id (ents w' e) → e' = e) →
     tag ∈ tags (ents w' e) →
     (entity_id (ents w' e)
        ∉ entities_to_remove (manager (before_removals behaviour dt w'))) →
     e ∈ EntityManager_get_entities_with_tag tag (EntityManager_update behaviour dt w')).
Proof.
  intros w' Hnew.
  assert (Hst : steady (EntityManager_add_entity e w) w') by apply run_calls_steady.
  split; [|split].
  - intros (id & _ & Hget)%get_entities_with_tag_elem. apply (Hnew id).
    destruct Hst as (Hent & _). unfold EntityManager_get_entity in *. by rewrite Hent in Hget.
  - destruct (run_calls_pending ks (EntityManager_add_entity e w)) as [p Hp].
    exists p. fold w' in Hp. rewrite Hp. simpl. by rewrite <- app_assoc.
  - intros earlier later Hq Hlater Htag Hrem.
    assert (Hflush :
      dict_get (entities (fold_left (EntityManager_add_one w') (entities_to_add (manager w'))
                            (manager w'))) (entity_id (ents w' e)) = Some e ∧
      ∀ t, t ∈ tags (ents w' e) →
           lists (tag_index (fold_left (EntityManager_add_one w') (entities_to_add (manager w'))
                               (manager w'))) t (entity_id (ents w' e))).
    { rewrite Hq, fold_left_app. cbn [fold_left]. apply add_fold_keeps; [exact Hlater|]. split.
      - rewrite add_one_entities. apply dict_get_set_eq.
      - intros t Ht. apply add_one_lists. by right. }
    destruct Hflush as [Ha1 Ha2].
    pose proof (EntityManager_update_pass_steady behaviour dt
                  (dict_values (entities (manager (EntityManager_process_entity_additions w'))))
                  (EntityManager_process_entity_additions w')) as (Hent & Hidx & _ & _).
    fold (before_removals behaviour dt w') in Hent, Hidx.
    destruct (remove_fold_other (before_removals behaviour dt w')
                (entities_to_remove (manager (before_removals behaviour dt w')))
                (manager (before_removals behaviour dt w')) _ Hrem) as [Hr1 Hr2].
    apply get_entities_with_tag_elem. exists (entity_id (ents w' e)).
    unfold index_lists, EntityManager_get_entity, EntityManager_update,
      EntityManager_process_entity_removals. simpl. split.
    + apply Hr2. rewrite Hidx. by apply Ha2.
    + rewrite Hr1, Hent. exact Ha1.
Qed.

Section UpdateTheorems.
Variable behaviour : cref → Q → World → list Call.

Lemma update_pass_app dt (l1 l2 : list ref) (w : World) :
  EntityManager_update_pass behaviour dt (l1 ++ l2) w
  = fold_left (EntityManager_update_entity behaviour dt) l2
      (EntityManager_update_pass behaviour dt l1 w).
Proof. unfold EntityManager_update_pass. apply fold_left_app. Qed.

(** An entity that is active and unmarked at its turn is updated. *)
Lemma update_pass_visits dt (pre post : list ref) (s : ref) (w : World) :
  active (ents (EntityManager_update_pass behaviour dt pre w).1 s) = true →
  marked_for_destruction (ents (EntityManager_update_pass behaviour dt pre w).1 s) = false →
  s ∈ (EntityManager_update_pass behaviour dt (pre ++ s :: post) w).2.
Proof.
  intros Ha Hm. rewrite update_pass_app. cbn [fold_left].
  apply EntityManager_update_pass_rel.
  unfold EntityManager_update_entity. rewrite Ha, Hm. simpl.
  apply elem_of_app. right. by apply list_elem_of_singleton.
Qed.

(** An entity found marked after its turn is queued for removal. *)
Lemma update_pass_queues dt (pre post : list ref) (r : ref) (w : World) :
  is_Some (dict_get (entities (manager w)) (entity_id (ents w r))) →
  active (ents (EntityManager_update_pass behaviour dt pre w).1 r) = true →
  marked_for_destruction (ents (EntityManager_update_pass behaviour dt pre w).1 r) = false →
  marked_for_destruction
    (ents (Entity_update behaviour dt r (EntityManager_update_pass behaviour dt pre w).1) r)
    = true →
  entity_id (ents w r)
    ∈ entities_to_remove (manager (EntityManager_update_pass behaviour dt (pre ++ r :: post) w).1).
Proof.
  intros Hin Ha Hm Hd. rewrite update_pass_app. cbn [fold_left].
  apply EntityManager_update_pass_rel.
  pose proof (EntityManager_update_pass_steady behaviour dt pre w) as (E1 & _ & I1 & _).
  set (st := EntityManager_update_pass behaviour dt pre w) in *.
  pose proof (Entity_update_steady behaviour dt r st.1) as (E2 & _ & I2 & _).
  unfold EntityManager_update_entity. rewrite Ha, Hm. simpl. rewrite Hd.
  unfold EntityManager_remove_entity.
  rewrite E2, E1, I2, I1.
  apply dict_has_true in Hin. rewrite Hin. simpl.
  apply elem_of_app. right. by apply list_elem_of_singleton.
Qed.

End UpdateTheorems.

(** * The tag index invariant *)

Lemma table_ok_no_entities (w : World) : entities (manager w) = [] → table_ok w.
Proof.
  intros E. unfold table_ok. rewrite E. split; [apply NoDup_nil_2|].
  by intros k e ?%elem_of_nil.
Qed.

Section consistency.
Variable w : World.
Implicit Types (m : EntityManager) (e : ref) (id tag : string).

Lemma add_one_consistent m e :
  consistent_with w m →
  (∀ e0, dict_get (entities m) (entity_id (ents w e)) = Some e0 → e0 = e) →
  consistent_with w (EntityManager_add_one w m e).
Proof.
  intros [C1 C2] Hsame. split.
  - intros tag id [Hold|[Ht ->]]%add_one_lists; rewrite add_one_entities.
    + destruct (C1 _ _ Hold) as (e0 & Hget & Hin).
      destruct (decide (entity_id (ents w e) = id)) as [<-|Hne].
      * rewrite (Hsame _ Hget) in Hin. exists e. by rewrite dict_get_set_eq.
      * exists e0. by rewrite dict_get_set_ne.
    + exists e. by rewrite dict_get_set_eq.
  - intros id e1 tag. rewrite add_one_entities. intros Hget Ht. apply add_one_lists.
    destruct (decide (entity_id (ents w e) = id)) as [<-|Hne].
    + rewrite dict_get_set_eq in Hget. injection Hget as <-. by right.
    + rewrite dict_get_set_ne in Hget by done. left. by eapply C2.
Qed.

Lemma add_fold_consistent (universe l : list ref) m :
  (∀ e1 e2, e1 ∈ universe → e2 ∈ universe →
            entity_id (ents w e1) = entity_id (ents w e2) → e1 = e2) →
  (∀ e, e ∈ l → e ∈ universe) →
  (∀ k e, dict_get (entities m) k = Some e → e ∈ universe ∧ entity_id (ents w e) = k) →
  consistent_with w m →
  consistent_with w (fold_left (EntityManager_add_one w) l m).
Proof.
  intros Huniq. revert m. induction l as [|e l IH]; intros m Hl Hm Hc; cbn [fold_left]; [done|].
  assert (He : e ∈ universe) by (apply Hl, elem_of_cons; by left).
  apply IH.
  - intros e' ?. apply Hl, elem_of_cons. by right.
  - intros k e'. rewrite add_one_entities.
    destruct (decide (entity_id (ents w e) = k)) as [<-|Hne].
    + rewrite dict_get_set_eq. by intros [= <-].
    + rewrite dict_get_set_ne by done. apply Hm.
  - apply add_one_consistent; [done|]. intros e0 Hget.
    destruct (Hm _ _ Hget) as [Hu Hid]. by apply Huniq.
Qed.

Lemma remove_one_consistent m id :
  consistent_with w m → consistent_with w (EntityManager_remove_one w m id).
Proof.
  intros [C1 C2]. split.
  - intros tag id' [Hold Hnot]%remove_one_lists.
    destruct (C1 _ _ Hold) as (e0 & Hget & Hin).
    exists e0. split; [|done]. rewrite remove_one_get.
    case_decide as Hd; [|done]. subst id'. destruct Hnot. split; [done|]. by exists e0.
  - intros id' e1 tag. rewrite remove_one_get. case_decide as Hd; [done|].
    intros Hget Ht. apply remove_one_lists. split; [by eapply C2|]. intros [-> _]. done.
Qed.

Lemma remove_fold_consistent (l : list string) m :
  consistent_with w m → consistent_with w (fold_left (EntityManager_remove_one w) l m).
Proof.
  revert m. induction l as [|id l IH]; intros m Hc; simpl; [done|].
  by apply IH, remove_one_consistent.
Qed.

Lemma remove_fold_NoDup (l : list string) m :
  NoDup (dict_keys (entities m)) →
  NoDup (dict_keys (entities (fold_left (EntityManager_remove_one w) l m))).
Proof.
  revert m. induction l as [|id l IH]; intros m Hnd; simpl; [done|].
  apply IH. unfold EntityManager_remove_one. destruct (dict_get (entities m) id); [|done].
  simpl. by apply dict_del_NoDup.
Qed.
End consistency.

Lemma consistent_with_steady (w w' : World) :
  steady w w' → same_tags w w' →
  consistent_with w (manager w) → consistent_with w' (manager w').
Proof.
  intros (Hent & Hidx & _ & _) Htags [C1 C2]. unfold consistent_with.
  rewrite Hent, Hidx. split.
  - intros tag id Hl. destruct (C1 _ _ Hl) as (e & ? & ?). exists e. by rewrite Htags.
  - intros id e tag Hget Ht. rewrite Htags in Ht. by eapply C2.
Qed.

(** The invariant holds in a new manager, and queueing does not touch it. *)
Lemma tag_index_consistent_init (es : ref → Entity) (cs : cref → Component) :
  tag_index_consistent (mkWorld es cs EntityManager_init).
Proof.
  split.
  - intros tag id H. unfold lists in H. simpl in H. rewrite lookup_empty in H.
    by apply not_elem_of_empty in H.
  - intros id e tag H. done.
Qed.

Lemma tag_index_consistent_add_entity (e : ref) (w : World) :
  tag_index_consistent w → tag_index_consistent (EntityManager_add_entity e w).
Proof. done. Qed.

Lemma tag_index_consistent_remove_entity (id : string) (w : World) :
  tag_index_consistent w → tag_index_consistent (EntityManager_remove_entity id w).
Proof. unfold EntityManager_remove_entity. by destruct (dict_has _ _). Qed.

(** One tick keeps the invariant, when no component changes a tag list. *)
Lemma update_keeps_consistency
    (behaviour : cref → Q → World → list Call) (dt : Q) (w : World) :
  keeps_tags behaviour →
  table_ok w →
  unique_ids w →
  tag_index_consistent w →
  table_ok (EntityManager_update behaviour dt w) ∧
  tag_index_consistent (EntityManager_update behaviour dt w).
Proof.
  intros Hkeeps Hok Huniq Hc.
  set (w1 := EntityManager_process_entity_additions w).
  set (w2 := before_removals behaviour dt w).
  assert (Hok1 : table_ok w1) by by apply process_additions_table_ok.
  assert (Hc1 : tag_index_consistent w1).
  { unfold tag_index_consistent, w1, EntityManager_process_entity_additions.
    destruct Hok as [Hnd Hkeys].
    apply (add_fold_consistent w
             (dict_values (entities (manager w)) ++ entities_to_add (manager w))); try done.
    - intros e He. apply elem_of_app. by right.
    - intros k e Hget%dict_get_elem. split; [|by apply Hkeys].
      apply elem_of_app. left. by apply (list_elem_of_fmap_2 snd) in Hget. }
  assert (Hst : steady w1 w2) by apply EntityManager_update_pass_steady.
  assert (Htg : same_tags w1 w2) by by apply EntityManager_update_pass_same_tags.
  assert (Hc2 : tag_index_consistent w2) by by apply (consistent_with_steady w1 w2).
  split.
  - destruct Hok1 as [Hnd Hkeys]. destruct Hst as (Hent & _ & Hids & _). split.
    + assert (Hnd2 : NoDup (dict_keys (entities (manager w2)))) by by rewrite Hent.
      by apply (remove_fold_NoDup w2).
    + intros k e Hin.
      assert (Hin2 : (k, e) ∈ entities (manager w2)) by by apply (remove_fold_elem w2) in Hin.
      rewrite Hent in Hin2. change (entity_id (ents w2 e) = k). rewrite Hids. by apply Hkeys.
  - apply (remove_fold_consistent w2). exact Hc2.
Qed.

(** The flush of the pending additions keeps the invariant, when the
    tracked and pending entities have distinct ids. *)
Lemma process_additions_consistent (w : World) :
  table_ok w → unique_ids w → tag_index_consistent w →
  tag_index_consistent (EntityManager_process_entity_additions w).
Proof.
  intros [Hnd Hkeys] Huniq Hc.
  unfold tag_index_consistent, EntityManager_process_entity_additions.
  apply (add_fold_consistent w
           (dict_values (entities (manager w)) ++ entities_to_add (manager w))); try done.
  - intros e He. apply elem_of_app. by right.
  - intros k e Hget%dict_get_elem. split; [|by apply Hkeys].
    apply elem_of_app. left. by apply (list_elem_of_fmap_2 snd) in Hget.
Qed.

(** C3 (as amended). Self-destruction-safe iteration: if the own update of
    an entity of the snapshot marks it for destruction, then when that
    [update(dt)] call returns the entity is absent from the table and from
    the index set of every tag it carries.  If the tag index was consistent
    and the tracked and pending entities had distinct ids when [update] was
    called, the index can still list the id only under a tag that the
    entity carried then and has dropped since, so with an unchanged tag
    list the id is in no set; without these conditions the id can stay
    listed under a tag indexed for another entity of the same id.  The loop
    runs to its end, and every sibling that is active and unmarked when its
    turn comes is updated. *)
Theorem self_destruction_safe (behaviour : cref → Q → World → list Call) (dt : Q)
    (w : World) (r : ref) (pre post : list ref) :
  let w1 := EntityManager_process_entity_additions w in
  let turn := (EntityManager_update_pass behaviour dt pre w1).1 in
  let w' := EntityManager_update behaviour dt w in
  table_ok w →
  dict_values (entities (manager w1)) = pre ++ r :: post →
  active (ents turn r) = true →
  marked_for_destruction (ents turn r) = false →
  marked_for_destruction (ents (Entity_update behaviour dt r turn) r) = true →
  EntityManager_get_entity (entity_id (ents w r)) w' = None ∧
  (r ∉ dict_values (entities (manager w'))) ∧
  (∀ tag, index_lists w' tag (entity_id (ents w r)) →
          index_lists w1 tag (entity_id (ents w r)) ∧ (tag ∉ tags (ents w' r))) ∧
  (unique_ids w → tag_index_consistent w →
   (∀ tag, index_lists w' tag (entity_id (ents w r)) →
           tag ∈ tags (ents w r) ∧ (tag ∉ tags (ents w' r))) ∧
   (tags (ents w' r) = tags (ents w r) →
    ∀ tag, ¬ index_lists w' tag (entity_id (ents w r)))) ∧
  (∀ pre' s post',
     dict_values (entities (manager w1)) = pre' ++ s :: post' →
     active (ents (EntityManager_update_pass behaviour dt pre' w1).1 s) = true →
     marked_for_destruction (ents (EntityManager_update_pass behaviour dt pre' w1).1 s) = false →
     s ∈ (EntityManager_update_pass behaviour dt (dict_values (entities (manager w1))) w1).2).
Proof.
  intros w1 turn w' Hok Hsnap Ha Hm Hd.
  pose proof (process_additions_table_ok w Hok) as [Hnd Hkeys]. fold w1 in Hnd, Hkeys.
  assert (Hr : dict_get (entities (manager w1)) (entity_id (ents w r)) = Some r).
  { assert (Hin : r ∈ dict_values (entities (manager w1))).
    { rewrite Hsnap. apply elem_of_app. right. apply elem_of_cons. by left. }
    apply dict_values_elem in Hin as [k Hin].
    pose proof (Hkeys _ _ Hin) as Hk. simpl in Hk. rewrite Hk. by apply dict_elem_get. }
  set (w2 := before_removals behaviour dt w).
  assert (Hst : steady w1 w2) by apply EntityManager_update_pass_steady.
  destruct Hst as (Hent & Hidx & Hids & _).
  assert (Hq : entity_id (ents w2 r) ∈ entities_to_remove (manager w2)).
  { rewrite Hids. subst w2. unfold before_removals. fold w1. rewrite Hsnap.
    apply update_pass_queues; done. }
  assert (Hgone : removed w2 r
            (fold_left (EntityManager_remove_one w2) (entities_to_remove (manager w2))
               (manager w2))).
  { apply remove_fold_removed; [done|]. left. rewrite Hids, Hent. exact Hr. }
  destruct Hgone as [G1 G2]. rewrite Hids in G1, G2. change (ents w1 r) with (ents w r) in G1, G2.
  assert (Hwas : ∀ tag, index_lists w' tag (entity_id (ents w r)) →
                        index_lists w1 tag (entity_id (ents w r))).
  { intros tag. unfold index_lists. rewrite <- Hidx. apply remove_fold_lists. }
  assert (Hnow : ∀ tag, index_lists w' tag (entity_id (ents w r)) → tag ∉ tags (ents w' r)).
  { intros tag H Ht. by apply (G2 tag Ht). }
  assert (Hthen : unique_ids w → tag_index_consistent w →
                  ∀ tag, index_lists w' tag (entity_id (ents w r)) → tag ∈ tags (ents w r)).
  { intros Huniq Hc tag H.
    destruct (process_additions_consistent w Hok Huniq Hc) as [C1 _].
    destruct (C1 tag (entity_id (ents w r)) (Hwas tag H)) as (e' & Hget & Ht).
    fold w1 in Hget. rewrite Hr in Hget. injection Hget as <-. exact Ht. }
  split; [exact G1|]. split; [|split; [|split]].
  - intros [k Hin]%dict_values_elem.
    assert (Hk : k = entity_id (ents w r)).
    { symmetry. apply (Hkeys k r). rewrite <- Hent.
      apply (remove_fold_elem w2 (entities_to_remove (manager w2))). exact Hin. }
    subst k. apply dict_elem_is_Some in Hin.
    change (is_Some (dict_get (entities (fold_left (EntityManager_remove_one w2)
              (entities_to_remove (manager w2)) (manager w2))) (entity_id (ents w r)))) in Hin.
    rewrite G1 in Hin. by destruct Hin.
  - intros tag H. split; [by apply Hwas|by apply Hnow].
  - intros Huniq Hc. split.
    + intros tag H. split; [by apply Hthen|by apply Hnow].
    + intros Hsame tag H. apply (Hnow tag H). rewrite Hsame. by apply Hthen.
  - intros pre' s post' Hsnap' Ha' Hm'. rewrite Hsnap'. by apply update_pass_visits.
Qed.

Lemma table_ok_steady (w w' : World) : steady w w' → table_ok w → table_ok w'.
Proof.
  intros (Hent & _ & Hids & _) [Hnd Hkeys]. unfold table_ok. rewrite Hent.
  split; [done|]. intros k e Hin. rewrite Hids. by apply Hkeys.
Qed.

(** A change of the tags of an entity outside the table does not matter. *)
Lemma retag_keeps_consistency (w : World) (e : ref) (ts : list string) :
  e ∉ dict_values (entities (manager w)) →
  table_ok w ∧ tag_index_consistent w →
  table_ok (set_entity w e (with_tags (ents w e) ts)) ∧
  tag_index_consistent (set_entity w e (with_tags (ents w e) ts)).
Proof.
  intros Hout [Hok [C1 C2]].
  assert (Hother : ∀ k e', dict_get (entities (manager w)) k = Some e' → e' ≠ e).
  { intros k e' Hget%dict_get_elem ->. apply Hout.
    by apply (list_elem_of_fmap_2 snd) in Hget. }
  split; [apply (table_ok_steady w); [by apply set_entity_steady|done]|].
  split.
  - intros tag id Hl. destruct (C1 _ _ Hl) as (e' & Hget & Hin). exists e'.
    split; [done|]. simpl. unfold upd. rewrite decide_False; [done|]. by eapply Hother.
  - intros id e' tag Hget. simpl in *. unfold upd. rewrite decide_False by by eapply Hother.
    by apply C2.
Qed.

(** C2 (as amended). Tag-index consistency: in every state reachable
    through the public operations in which ticks run on entities with
    distinct ids and [add_tag]/[remove_tag] leave the entities of the table
    alone, every id listed in the tag index under a tag is in the table and
    its entity carries that tag, and every entity of the table is listed
    under each tag it carries. *)
Theorem tag_index_consistency
    (behaviour : cref → Q → World → list Call) (w : World) :
  keeps_tags behaviour →
  kernel_reachable behaviour w →
  table_ok w ∧ tag_index_consistent w.
Proof.
  intros Hkeeps Hreach. induction Hreach as
    [es cs|e w _ IH|id w _ IH|dt w _ IH Huniq|k w _ IH Hk|tag e w _ IH Hout|tag e w _ IH Hout].
  - split; [by apply table_ok_no_entities|apply tag_index_consistent_init].
  - exact IH.
  - destruct IH as [Hok Hc]. split; [|by apply tag_index_consistent_remove_entity].
    unfold EntityManager_remove_entity. by destruct (dict_has _ _).
  - destruct IH as [Hok Hc]. by apply update_keeps_consistency.
  - destruct IH as [Hok Hc]. split.
    + apply (table_ok_steady w); [apply run_call_steady|done].
    + apply (consistent_with_steady w); [apply run_call_steady|by apply run_call_same_tags|done].
  - unfold Entity_add_tag. destruct (list_has _ _); [done|]. by apply retag_keeps_consistency.
  - unfold Entity_remove_tag. destruct (list_has _ _); [|done]. by apply retag_keeps_consistency.
Qed.

(** * The claims on small worlds *)

Lemma deferred_add_visibility_witness :
  (O ∉ EntityManager_get_entities_with_tag "t"
         (fold_left run_call [CallAddEntity 1%nat] (EntityManager_add_entity O solo))) ∧
  O ∈ EntityManager_get_entities_with_tag "t"
        (EntityManager_update quiet 1
           (fold_left run_call [CallAddEntity 1%nat] (EntityManager_add_entity O solo))).
Proof.
  destruct (deferred_add_visibility quiet 1 O "t" solo [CallAddEntity 1%nat]) as (H1 & _ & H3).
  - intros id. discriminate.
  - split; [exact H1|]. apply (H3 [] [1%nat]).
    + reflexivity.
    + intros e' He' Hid. apply list_elem_of_singleton in He'. subst e'. discriminate Hid.
    + apply list_elem_of_singleton. reflexivity.
    + vm_compute. apply not_elem_of_nil.
Defined.

(** The proviso on ids is needed: of two pending entities with the same id
    only the one submitted last is in the table after the flush. *)
Lemma same_id_hides_pending :
  O ∉ EntityManager_get_entities_with_tag "a"
        (EntityManager_update quiet 1
           (EntityManager_add_entity 1%nat (EntityManager_add_entity O twins))).
Proof.
  assert (E : EntityManager_get_entities_with_tag "a"
                (EntityManager_update quiet 1
                   (EntityManager_add_entity 1%nat (EntityManager_add_entity O twins)))
              = [1%nat]) by (vm_compute; reflexivity).
  rewrite E. intros H%list_elem_of_singleton. discriminate H.
Qed.

(** C1 as stated fails: an entity that destroys itself in its first update
    is flushed in and removed again by the same [update(dt)] call. *)
Lemma deferred_add_self_destruct :
  ¬ (∀ (behaviour : cref → Q → World → list Call) (dt : Q)
       (e : ref) (tag : string) (w : World),
       (∀ id, EntityManager_get_entity id w ≠ Some e) →
       tag ∈ tags (ents w e) →
       e ∈ EntityManager_get_entities_with_tag tag
             (EntityManager_update behaviour dt (EntityManager_add_entity e w))).
Proof.
  intros H. specialize (H self_destruct 1%Q O "t" solo).
  assert (E : EntityManager_get_entities_with_tag "t"
                (EntityManager_update self_destruct 1 (EntityManager_add_entity O solo)) = [])
    by (vm_compute; reflexivity).
  rewrite E in H. eapply not_elem_of_nil, H.
  - intros id. discriminate.
  - apply list_elem_of_singleton. reflexivity.
Qed.

Lemma self_destruction_safe_witness :
  EntityManager_get_entity "e"
    (EntityManager_update self_destruct 1 (EntityManager_add_entity O solo)) = None ∧
  ∀ tag, ¬ index_lists
             (EntityManager_update self_destruct 1 (EntityManager_add_entity O solo)) tag "e".
Proof.
  destruct (self_destruction_safe self_destruct 1 (EntityManager_add_entity O solo) O [] [])
    as (H1 & _ & _ & H4 & _).
  - apply table_ok_no_entities. reflexivity.
  - reflexivity.
  - reflexivity.
  - reflexivity.
  - reflexivity.
  - split; [exact H1|]. apply H4.
    + intros e1 e2 He1 He2 _. apply list_elem_of_singleton in He1, He2. congruence.
    + apply tag_index_consistent_add_entity, (tag_index_consistent_init (ents solo) (comps solo)).
    + reflexivity.
Defined.

(** The proviso on ids is needed: an entity flushed in under the id of a
    tracked entity takes its place in the table, and when it destroys
    itself, with its tag list unchanged, the id stays listed under the tag
    of the entity it replaced. *)
Lemma reused_id_stays_listed :
  let w := EntityManager_add_entity 1%nat
             (EntityManager_update second_dies 1 (EntityManager_add_entity O twins)) in
  tags (ents (EntityManager_update second_dies 1 w) 1%nat) = tags (ents w 1%nat) ∧
  EntityManager_get_entity "x" (EntityManager_update second_dies 1 w) = None ∧
  index_lists (EntityManager_update second_dies 1 w) "a" "x".
Proof.
  split; [reflexivity|]. split; [vm_compute; reflexivity|].
  unfold index_lists, lists. apply (bool_decide_unpack _). vm_compute. exact I.
Qed.

(** C3 as stated fails: an entity that drops a tag and then destroys itself
    leaves the table, but the index still lists it under the dropped tag. *)
Lemma self_destruction_stale_tag :
  ¬ (∀ (behaviour : cref → Q → World → list Call) (dt : Q) (w : World) (r : ref)
       (pre post : list ref),
       let w1 := EntityManager_process_entity_additions w in
       let turn := (EntityManager_update_pass behaviour dt pre w1).1 in
       table_ok w →
       dict_values (entities (manager w1)) = pre ++ r :: post →
       active (ents turn r) = true →
       marked_for_destruction (ents turn r) = false →
       marked_for_destruction (ents (Entity_update behaviour dt r turn) r) = true →
       ∀ tag, ¬ index_lists (EntityManager_update behaviour dt w) tag (entity_id (ents w r))).
Proof.
  intros H.
  apply (H drop_tag_and_die 1%Q (EntityManager_add_entity O solo) O [] []
           (table_ok_no_entities (EntityManager_add_entity O solo) eq_refl)
           eq_refl eq_refl eq_refl eq_refl "t").
  unfold index_lists, lists. apply (bool_decide_unpack _). vm_compute. exact I.
Qed.

Lemma tag_index_consistency_witness :
  table_ok (EntityManager_update quiet 1 (EntityManager_add_entity O solo)) ∧
  tag_index_consistent (EntityManager_update quiet 1 (EntityManager_add_entity O solo)).
Proof.
  apply (tag_index_consistency quiet).
  - intros c dt w k Hk. by apply elem_of_nil in Hk.
  - apply reach_update; [apply reach_add_entity, reach_new|].
    intros e1 e2 H1 H2 _. simpl in H1, H2.
    apply list_elem_of_singleton in H1, H2. congruence.
Defined.

(** C2 as stated fails: a tag added with [add_tag] after the entity was
    flushed in never reaches the index, whatever the number of updates. *)
Lemma tag_index_misses_late_tag :
  ¬ tag_index_consistent
      (EntityManager_update quiet 1
         (Entity_add_tag "late" O
            (EntityManager_update quiet 1 (EntityManager_add_entity O solo)))).
Proof.
  intros [_ H]. specialize (H "e" O "late").
  assert (Hn : ¬ lists (tag_index (manager
      (EntityManager_update quiet 1
         (Entity_add_tag "late" O
            (EntityManager_update quiet 1 (EntityManager_add_entity O solo)))))) "late" "e").
  { unfold lists. intros Hc. apply (bool_decide_pack _) in Hc. vm_compute in Hc. exact Hc. }
  apply Hn, H.
  - vm_compute. reflexivity.
  - apply list_elem_of_In. vm_compute. auto.
Qed.

(** The other direction: a tag dropped with [remove_tag] stays in the index. *)
Lemma tag_index_keeps_dropped_tag :
  ¬ tag_index_consistent
      (EntityManager_update quiet 1
         (Entity_remove_tag "t" O
            (EntityManager_update quiet 1 (EntityManager_add_entity O solo)))).
Proof.
  intros [H _]. destruct (H "t" "e") as (e & Hget & Hin).
  - unfold lists. apply (bool_decide_unpack _). vm_compute. exact I.
  - vm_compute in Hget. injection Hget as <-.
    apply list_elem_of_In in Hin. vm_compute in Hin. exact Hin.
Qed.

(** * Spatial grid: the broad phase *)

Lemma py_int_mono (x y : Q) : (x <= y)%Q → (py_int x ≤ py_int y)%Z.
Proof.
  intros Hxy. unfold py_int.
  destruct (Qle_bool 0 x) eqn:Ex, (Qle_bool 0 y) eqn:Ey.
  - by apply Qfloor_resp_le.
  - apply Qle_bool_iff in Ex. assert (Hy : ¬ (0 <= y)%Q) by (rewrite <- Qle_bool_iff; congruence).
    destruct Hy. by apply (Qle_trans _ x).
  - assert (Hx : ¬ (0 <= x)%Q) by (rewrite <- Qle_bool_iff; congruence).
    apply Qnot_le_lt, Qlt_le_weak in Hx. apply Qle_bool_iff in Ey.
    apply Qceiling_resp_le in Hx. apply Qfloor_resp_le in Ey.
    change (Qceiling 0) with 0%Z in Hx. change (Qfloor 0) with 0%Z in Ey. lia.
  - by apply Qceiling_resp_le.
Qed.

Lemma Qdiv_le_pos (x y c : Q) : (0 < c)%Q → (x <= y)%Q → (x / c <= y / c)%Q.
Proof.
  intros Hc Hxy. unfold Qdiv. apply Qmult_le_compat_r; [done|].
  apply Qlt_le_weak. by apply Qinv_lt_0_compat.
Qed.

Lemma Qdiv_le_neg (x y c : Q) : (c < 0)%Q → (x <= y)%Q → (y / c <= x / c)%Q.
Proof.
  intros Hc Hxy.
  assert (Hne : ¬ (c == 0)%Q) by (intros E; rewrite E in Hc; by apply Qlt_irrefl in Hc).
  assert (E : ∀ z : Q, (z / c == (- z) / (- c))%Q) by (intros z; by field).
  rewrite (E x), (E y). apply Qdiv_le_pos.
  - apply (Qplus_lt_l _ _ c). by ring_simplify.
  - by apply Qopp_le_compat.
Qed.

(** Cell indices follow the order of the coordinates, one way or the other. *)
Lemma cell_index_order (cs : Z) (x y : Q) :
  cs ≠ 0%Z → (x <= y)%Q →
  if (0 <? cs)%Z
  then (py_int (x / inject_Z cs) ≤ py_int (y / inject_Z cs))%Z
  else (py_int (y / inject_Z cs) ≤ py_int (x / inject_Z cs))%Z.
Proof.
  intros Hcs Hxy. destruct (Z.ltb_spec 0 cs) as [Hpos|Hneg]; apply py_int_mono.
  - apply Qdiv_le_pos; [|done]. change 0%Q with (inject_Z 0). by rewrite <- Zlt_Qlt.
  - apply Qdiv_le_neg; [|done]. change 0%Q with (inject_Z 0). rewrite <- Zlt_Qlt. lia.
Qed.

Lemma cells_of_elem (g : SpatialGrid) (pos size : Q * Q) (col row : Z) :
  (col, row) ∈ cells_of g pos size ↔
  (cell_min (cell_size g) pos.1 size.1 ≤ col ≤ cell_max (cell_size g) (cols g) pos.1 size.1 ∧
   cell_min (cell_size g) pos.2 size.2 ≤ row ≤ cell_max (cell_size g) (rows g) pos.2 size.2)%Z.
Proof.
  unfold cells_of, py_range. rewrite list_elem_of_bind. split.
  - intros (c & (r & Hin & Hr%elem_of_seqZ)%list_elem_of_bind & Hc%elem_of_seqZ).
    apply list_elem_of_singleton in Hin. injection Hin as -> ->. lia.
  - intros [Hc Hr]. exists col. split; [|apply elem_of_seqZ; lia].
    apply list_elem_of_bind. exists row. split; [|apply elem_of_seqZ; lia].
    by apply list_elem_of_singleton.
Qed.

Lemma cells_of_shape (g g' : SpatialGrid) (pos size : Q * Q) :
  same_shape g g' → cells_of g' pos size = cells_of g pos size.
Proof. intros (E1 & E2 & E3). unfold cells_of. by rewrite E1, E2, E3. Qed.

(** Along one axis: overlapping extents whose index ranges are not empty
    have an index in common. *)
Lemma common_index (cs n : Z) (x1 e1 x2 e2 : Q) (i1 i2 : Z) :
  cs ≠ 0%Z →
  intervals_overlap (x1 - e1 / 2) (x1 + e1 / 2) (x2 - e2 / 2) (x2 + e2 / 2) →
  (cell_min cs x1 e1 ≤ i1 ≤ cell_max cs n x1 e1)%Z →
  (cell_min cs x2 e2 ≤ i2 ≤ cell_max cs n x2 e2)%Z →
  ∃ i, (cell_min cs x1 e1 ≤ i ≤ cell_max cs n x1 e1)%Z ∧
       (cell_min cs x2 e2 ≤ i ≤ cell_max cs n x2 e2)%Z.
Proof.
  intros Hcs (X1 & X2 & X3 & X4) H1 H2.
  exists (Z.max (cell_min cs x1 e1) (cell_min cs x2 e2)).
  unfold cell_min, cell_max in *.
  pose proof (cell_index_order cs _ _ Hcs (Qlt_le_weak _ _ X1)) as A1.
  pose proof (cell_index_order cs _ _ Hcs (Qlt_le_weak _ _ X2)) as A2.
  pose proof (cell_index_order cs _ _ Hcs (Qlt_le_weak _ _ X3)) as A3.
  pose proof (cell_index_order cs _ _ Hcs (Qlt_le_weak _ _ X4)) as A4.
  destruct (0 <? cs)%Z; lia.
Qed.

(** Overlapping boxes that both reach the grid meet in one of its cells. *)
Lemma overlap_common_cell (g : SpatialGrid) (pos1 size1 pos2 size2 : Q * Q) :
  cell_size g ≠ 0%Z →
  boxes_overlap pos1 size1 pos2 size2 →
  cells_of g pos1 size1 ≠ [] → cells_of g pos2 size2 ≠ [] →
  ∃ cell, cell ∈ cells_of g pos1 size1 ∧ cell ∈ cells_of g pos2 size2.
Proof.
  intros Hcs [HX HY] Hne1 Hne2.
  destruct (cells_of g pos1 size1) as [|[c1 r1] l1] eqn:E1; [done|].
  destruct (cells_of g pos2 size2) as [|[c2 r2] l2] eqn:E2; [done|].
  assert (H1 : (c1, r1) ∈ cells_of g pos1 size1) by (rewrite E1; apply elem_of_cons; by left).
  assert (H2 : (c2, r2) ∈ cells_of g pos2 size2) by (rewrite E2; apply elem_of_cons; by left).
  rewrite <- E1, <- E2. clear E1 E2 Hne1 Hne2.
  apply cells_of_elem in H1 as [C1 R1], H2 as [C2 R2].
  destruct (common_index _ _ _ _ _ _ _ _ Hcs HX C1 C2) as (col & ? & ?).
  destruct (common_index _ _ _ _ _ _ _ _ Hcs HY R1 R2) as (row & ? & ?).
  exists (col, row). by rewrite !cells_of_elem.
Qed.

(** ** What a rebuild puts into the grid *)

Lemma add_to_cell_fold (e : ref) (id : string) (cells : list (Z * Z)) (g0 : SpatialGrid) :
  let g1 := fold_left (SpatialGrid_add_to_cell e id) cells g0 in
  same_shape g0 g1 ∧
  (∀ cell e', e' ∈ default [] (grid g1 !! cell)
              ↔ e' ∈ default [] (grid g0 !! cell) ∨ (e' = e ∧ cell ∈ cells)) ∧
  (∀ s, entity_cells g0 !! id = Some s →
        entity_cells g1 !! id = Some (s ∪ list_to_set cells)) ∧
  (∀ id', id' ≠ id → entity_cells g1 !! id' = entity_cells g0 !! id').
Proof.
  revert g0. induction cells as [|c cells IH]; intros g0; cbn [fold_left].
  - split; [done|]. split; [|split].
    + intros cell e'. split; [by left|]. intros [?|[_ ?%elem_of_nil]]; done.
    + intros s Hs. rewrite Hs. f_equal. set_solver.
    + done.
  - destruct (IH (SpatialGrid_add_to_cell e id g0 c)) as (S1 & G1 & C1 & O1).
    split; [exact S1|]. split; [|split].
    + intros cell e'. rewrite G1. simpl.
      destruct (decide (c = cell)) as [->|Hne].
      * rewrite lookup_insert_eq. simpl. rewrite elem_of_app, list_elem_of_singleton.
        rewrite elem_of_cons. naive_solver.
      * rewrite lookup_insert_ne by done. rewrite elem_of_cons. naive_solver.
    + intros s Hs. rewrite (C1 (s ∪ {[c]})).
      * f_equal. set_solver.
      * simpl. by rewrite lookup_insert_eq, Hs.
    + intros id' Hne. rewrite (O1 id' Hne). simpl. by rewrite lookup_insert_ne.
Qed.

Lemma box_of_components (e : ref) (w : World) :
  match Entity_get_component "transform" e w, Entity_get_component "collision" e w with
  | Some t, Some c =>
      box_of e w = pos ← attr_position (comps w t); size ← attr_size (comps w c); Some (pos, size)
  | _, _ => box_of e w = None
  end.
Proof.
  unfold box_of.
  destruct (Entity_get_component "transform" e w), (Entity_get_component "collision" e w); done.
Qed.

Lemma rebuilt_shape (l : list ref) (w : World) (g g' : SpatialGrid) :
  rebuilt l w g g' → same_shape g g'.
Proof. by intros [? _]. Qed.

Lemma rebuilt_clear (w : World) (g : SpatialGrid) : rebuilt [] w g (SpatialGrid_clear g).
Proof.
  split; [done|]. split.
  - intros cell e H. simpl in H. rewrite lookup_empty in H. by apply elem_of_nil in H.
  - by intros e pos size ?%elem_of_nil.
Qed.

Lemma same_shape_trans (g1 g2 g3 : SpatialGrid) :
  same_shape g1 g2 → same_shape g2 g3 → same_shape g1 g3.
Proof. intros (A1 & A2 & A3) (B1 & B2 & B3). unfold same_shape. by rewrite B1, B2, B3. Qed.

Lemma update_entity_skip (l : list ref) (w : World) (g0 g : SpatialGrid) (e : ref) :
  rebuilt l w g0 g → (active (ents w e) = true → box_of e w = None) →
  rebuilt (l ++ [e]) w g0 g.
Proof.
  intros (S & G & C) Hskip. split; [done|]. split.
  - intros cell e' H. destruct (G cell e' H) as [Hin Hbox]. split; [|done].
    apply elem_of_app. by left.
  - intros e' pos size [Hin|Hin%list_elem_of_singleton]%elem_of_app Ha Hb.
    + by apply C.
    + subst e'. rewrite Hskip in Hb; done.
Qed.

Lemma update_entity_rebuilt (l : list ref) (w : World) (g0 g g1 : SpatialGrid) (e : ref) :
  rebuilt l w g0 g →
  (∀ e', e' ∈ l → entity_id (ents w e') ≠ entity_id (ents w e)) →
  SpatialGrid_update_entity w g e = Some g1 →
  rebuilt (l ++ [e]) w g0 g1.
Proof.
  intros Hr Hfresh. unfold SpatialGrid_update_entity.
  destruct (active (ents w e)) eqn:Ha; simpl;
    [|intros [= <-]; apply update_entity_skip; [done|intros; congruence]].
  pose proof (box_of_components e w) as Hbox.
  destruct (Entity_get_component "transform" e w) as [t|];
    [|intros [= <-]; apply update_entity_skip; [done|intros _; exact Hbox]].
  destruct (Entity_get_component "collision" e w) as [c|];
    [|intros [= <-]; apply update_entity_skip; [done|intros _; exact Hbox]].
  destruct (attr_position (comps w t)) as [pos|]; [|done].
  destruct (attr_size (comps w c)) as [size|]; [|done].
  simpl in *. destruct (Z.eqb_spec (cell_size g) 0) as [|Hcs]; [done|]. intros [= <-].
  destruct Hr as (S & G & C).
  set (g' := with_grid g (grid g) (<[entity_id (ents w e) := ∅]> (entity_cells g))).
  destruct (add_to_cell_fold e (entity_id (ents w e)) (cells_of g pos size) g')
    as (S1 & G1 & C1 & O1).
  rewrite (cells_of_shape g0 g) in * by done.
  split; [|split].
  - eapply same_shape_trans; [exact S|]. exact S1.
  - intros cell e'. rewrite G1. intros [Hold|[-> Hc]].
    + destruct (G cell e' Hold) as [Hin Hb]. split; [|done]. apply elem_of_app. by left.
    + split; [apply elem_of_app; right; by apply list_elem_of_singleton|].
      by exists pos, size.
  - intros e' pos' size' [Hin|Hin%list_elem_of_singleton]%elem_of_app Ha' Hb'.
    + destruct (C e' pos' size' Hin Ha' Hb') as (C0 & C2 & C3). split; [done|]. split.
      * rewrite O1 by by apply Hfresh. simpl. rewrite lookup_insert_ne; [done|].
        intros E. by apply (Hfresh e' Hin).
      * intros cell Hc. apply G1. left. by apply C3.
    + subst e'. rewrite Hbox in Hb'. injection Hb' as <- <-.
      split; [destruct S as [<- _]; done|]. split.
      * rewrite (C1 ∅); [f_equal; set_solver|]. simpl. by rewrite lookup_insert_eq.
      * intros cell Hc. apply G1. by right.
Qed.

Lemma SpatialGrid_update_rebuilt (entities : list ref) (w : World) (g g' : SpatialGrid) :
  NoDup ((λ e, entity_id (ents w e)) <$> entities) →
  SpatialGrid_update entities w g = Some g' →
  rebuilt entities w g g'.
Proof.
  unfold SpatialGrid_update. revert g'.
  induction entities as [|e l IH] using rev_ind; intros g' Hnd.
  - intros [= <-]. apply rebuilt_clear.
  - rewrite foldl_snoc. rewrite fmap_app in Hnd. apply NoDup_app in Hnd as (Hl & Hfresh & _).
    destruct (foldl _ _ l) as [g1|]; [|done]. simpl. intros Hstep.
    eapply update_entity_rebuilt; [by apply IH| |exact Hstep].
    intros e' Hin E. apply (Hfresh (entity_id (ents w e'))).
    + by apply (list_elem_of_fmap_2 (λ e, entity_id (ents w e))).
    + rewrite E. simpl. apply list_elem_of_singleton. done.
Qed.

Lemma get_potential_collisions_elem (a b : ref) (w : World) (g : SpatialGrid) :
  b ∈ (SpatialGrid_get_potential_collisions a w g).1 ↔
  ∃ cell, cell ∈ assigned g w a ∧ b ∈ default [] (grid g !! cell) ∧
          entity_id (ents w b) ≠ entity_id (ents w a) ∧ active (ents w b) = true.
Proof.
  unfold SpatialGrid_get_potential_collisions, assigned.
  destruct (entity_cells g !! entity_id (ents w a)) as [cells|]; simpl.
  - rewrite elem_of_elements, elem_of_list_to_set, list_elem_of_bind. split.
    + intros (cell & (other & Hif & Hother)%list_elem_of_bind & Hcell%elem_of_elements).
      exists cell. case_bool_decide as Hid; simpl in Hif; [by apply elem_of_nil in Hif|].
      destruct (active (ents w other)) eqn:Ha; simpl in Hif; [|by apply elem_of_nil in Hif].
      apply list_elem_of_singleton in Hif. by subst other.
    + intros (cell & Hcell & Hb & Hid & Ha). exists cell. split; [|by apply elem_of_elements].
      apply list_elem_of_bind. exists b. split; [|done].
      rewrite bool_decide_eq_false_2 by done. rewrite Ha. simpl. by apply list_elem_of_singleton.
  - split; [by intros ?%elem_of_nil|]. by intros (cell & ?%not_elem_of_empty & _).
Qed.

Lemma NoDup_fmap_eq {A B} (f : A → B) (l : list A) (x y : A) :
  NoDup (f <$> l) → x ∈ l → y ∈ l → f x = f y → x = y.
Proof.
  induction l as [|z l IH]; [by intros _ ?%elem_of_nil|].
  rewrite fmap_cons. intros [Hz Hl]%NoDup_cons [->|Hx]%elem_of_cons [->|Hy]%elem_of_cons E.
  - done.
  - destruct Hz. rewrite E. by apply list_elem_of_fmap_2.
  - destruct Hz. rewrite <- E. by apply list_elem_of_fmap_2.
  - by apply IH.
Qed.

(** C5 (as amended). Broad phase, after a rebuild from entities with
    pairwise distinct ids, for two active entities [a] and [b] with
    transform and collision components: if no cell is assigned to both,
    [b] is not in [get_potential_collisions(a)]; if their boxes overlap and
    each was assigned at least one cell (neither lies wholly outside the
    grid), each is in the other's candidate list. *)
Theorem broad_phase (entities : list ref) (w : World) (g g' : SpatialGrid)
    (a b : ref) (posa sizea posb sizeb : Q * Q) :
  SpatialGrid_update entities w g = Some g' →
  NoDup ((λ e, entity_id (ents w e)) <$> entities) →
  a ∈ entities → b ∈ entities → a ≠ b →
  active (ents w a) = true → active (ents w b) = true →
  box_of a w = Some (posa, sizea) → box_of b w = Some (posb, sizeb) →
  (assigned g' w a ∩ assigned g' w b = ∅ →
   b ∉ (SpatialGrid_get_potential_collisions a w g').1) ∧
  (boxes_overlap posa sizea posb sizeb →
   assigned g' w a ≠ ∅ → assigned g' w b ≠ ∅ →
   b ∈ (SpatialGrid_get_potential_collisions a w g').1 ∧
   a ∈ (SpatialGrid_get_potential_collisions b w g').1).
Proof.
  intros Hup Hnd Ha Hb Hab Aa Ab Ba Bb.
  destruct (SpatialGrid_update_rebuilt _ _ _ _ Hnd Hup) as (Hs & Hg & Hc).
  destruct (Hc a _ _ Ha Aa Ba) as (Hcs & Ea & Ga).
  destruct (Hc b _ _ Hb Ab Bb) as (_ & Eb & Gb).
  assert (Hid : entity_id (ents w b) ≠ entity_id (ents w a)).
  { intros E. apply Hab. symmetry.
    by apply (NoDup_fmap_eq (λ e, entity_id (ents w e)) entities). }
  assert (Asa : assigned g' w a = list_to_set (cells_of g posa sizea))
    by (unfold assigned; by rewrite Ea).
  assert (Asb : assigned g' w b = list_to_set (cells_of g posb sizeb))
    by (unfold assigned; by rewrite Eb).
  split.
  - intros Hdisj (cell & Hcell & Hin & _)%get_potential_collisions_elem.
    destruct (Hg cell b Hin) as (_ & pos & size & Hbox & Hcb).
    rewrite Bb in Hbox. injection Hbox as <- <-.
    assert (Hboth : cell ∈ assigned g' w a ∩ assigned g' w b).
    { apply elem_of_intersection. split; [done|]. rewrite Asb. by apply elem_of_list_to_set. }
    rewrite Hdisj in Hboth. by apply not_elem_of_empty in Hboth.
  - intros Hov Na Nb.
    destruct (overlap_common_cell g posa sizea posb sizeb Hcs Hov) as (cell & Hca & Hcb).
    + intros E. apply Na. by rewrite Asa, E.
    + intros E. apply Nb. by rewrite Asb, E.
    + split; apply get_potential_collisions_elem; exists cell.
      * split; [rewrite Asa; by apply elem_of_list_to_set|]. split; [by apply Gb|done].
      * split; [rewrite Asb; by apply elem_of_list_to_set|]. split; [by apply Ga|].
        split; [congruence|done].
Qed.

Lemma broad_phase_witness :
  (1%nat ∈ (SpatialGrid_get_potential_collisions 0%nat boxes_inside (rebuild boxes_inside)).1) ∧
  (0%nat ∈ (SpatialGrid_get_potential_collisions 1%nat boxes_inside (rebuild boxes_inside)).1).
Proof.
  destruct (broad_phase [0; 1]%nat boxes_inside small_grid (rebuild boxes_inside) 0%nat 1%nat
              (50, 50)%Q (10, 10)%Q (58, 50)%Q (10, 10)%Q) as [_ H].
  - vm_compute. reflexivity.
  - apply (bool_decide_unpack _). vm_compute. exact I.
  - apply (bool_decide_unpack _). vm_compute. exact I.
  - apply (bool_decide_unpack _). vm_compute. exact I.
  - discriminate.
  - reflexivity.
  - reflexivity.
  - reflexivity.
  - reflexivity.
  - apply H.
    + repeat split; vm_compute; reflexivity.
    + intros E. assert (Hin : (0, 0)%Z ∈ assigned (rebuild boxes_inside) boxes_inside 0%nat)
        by (apply (bool_decide_unpack _); vm_compute; exact I).
      rewrite E in Hin. by apply not_elem_of_empty in Hin.
    + intros E. assert (Hin : (0, 0)%Z ∈ assigned (rebuild boxes_inside) boxes_inside 1%nat)
        by (apply (bool_decide_unpack _); vm_compute; exact I).
      rewrite E in Hin. by apply not_elem_of_empty in Hin.
Defined.

(** C5 as stated fails: two overlapping boxes around (1000, 1000) lie
    outside a 100×100 world; the rebuild assigns them no cell, and neither
    is a candidate of the other. *)
Lemma off_grid_boxes_missed :
  ¬ (∀ (entities : list ref) (w : World) (g g' : SpatialGrid)
       (a b : ref) (posa sizea posb sizeb : Q * Q),
       SpatialGrid_update entities w g = Some g' →
       NoDup ((λ e, entity_id (ents w e)) <$> entities) →
       a ∈ entities → b ∈ entities → a ≠ b →
       active (ents w a) = true → active (ents w b) = true →
       box_of a w = Some (posa, sizea) → box_of b w = Some (posb, sizeb) →
       boxes_overlap posa sizea posb sizeb →
       b ∈ (SpatialGrid_get_potential_collisions a w g').1).
Proof.
  intros H.
  specialize (H [0; 1]%nat boxes_outside small_grid (rebuild boxes_outside) 0%nat 1%nat
                (1000, 1000)%Q (10, 10)%Q (1002, 1000)%Q (10, 10)%Q).
  assert (E : (SpatialGrid_get_potential_collisions 0%nat boxes_outside
                 (rebuild boxes_outside)).1 = []) by (vm_compute; reflexivity).
  rewrite E in H. eapply not_elem_of_nil, H.
  - vm_compute. reflexivity.
  - apply (bool_decide_unpack _). vm_compute. exact I.
  - apply (bool_decide_unpack _). vm_compute. exact I.
  - apply (bool_decide_unpack _). vm_compute. exact I.
  - discriminate.
  - reflexivity.
  - reflexivity.
  - reflexivity.
  - reflexivity.
  - repeat split; vm_compute; reflexivity.
Qed.

(** * Further properties: entities and components *)

Lemma upd_eq {A} (f : nat → A) (r : nat) (x : A) : upd f r x r = x.
Proof. unfold upd. by rewrite decide_True. Qed.

Lemma upd_ne {A} (f : nat → A) (r r' : nat) (x : A) : r' ≠ r → upd f r x r' = f r'.
Proof. intros. unfold upd. by rewrite decide_False. Qed.

(** X1. Attaching: after [add_component(c)] the entity returns [c] for its
    type and [c] points back at the entity; a different component of the
    same type that was attached before is detached, its back-reference
    cleared, and the components of other types stay. *)
Theorem add_component_attaches (c : cref) (e : ref) (w : World) :
  let ct := component_type (comps w c) in
  let w' := Entity_add_component c e w in
  Entity_get_component ct e w' = Some c ∧
  entity (comps w' c) = Some e ∧
  (∀ c0, Entity_get_component ct e w = Some c0 → c0 ≠ c → entity (comps w' c0) = None) ∧
  (∀ ct', ct' ≠ ct → Entity_get_component ct' e w' = Entity_get_component ct' e w).
Proof.
  intros ct w'. subst w'. unfold Entity_add_component, Component_on_add. fold ct.
  unfold Entity_has_component, dict_has, Entity_remove_component, Entity_get_component,
    Component_on_remove.
  destruct (dict_get (components (ents w e)) ct) as [c0|] eqn:E; simpl;
    rewrite ?upd_eq; simpl.
  - split; [apply dict_get_set_eq|]. split; [done|]. split.
    + intros c1 [= <-] Hne. rewrite upd_ne by done. by rewrite upd_eq.
    + intros ct' Hne. rewrite dict_get_set_ne by done. by apply dict_get_del_ne.
  - split; [apply dict_get_set_eq|]. split; [done|]. split; [done|].
    intros ct' Hne. by rewrite dict_get_set_ne.
Qed.

(** X2. Detaching: [remove_component(ct)] returns what [get_component(ct)]
    returned; afterwards the entity has no component of that type, the
    returned component points at no entity, and the components of other
    types stay; with nothing attached under [ct] nothing changes. *)
Theorem remove_component_detaches (ct : string) (e : ref) (w : World) :
  let r := Entity_remove_component ct e w in
  r.2 = Entity_get_component ct e w ∧
  Entity_get_component ct e r.1 = None ∧
  (∀ c, r.2 = Some c → entity (comps r.1 c) = None) ∧
  (∀ ct', ct' ≠ ct → Entity_get_component ct' e r.1 = Entity_get_component ct' e w) ∧
  (r.2 = None → r.1 = w).
Proof.
  intros r. subst r. unfold Entity_remove_component, Entity_get_component, Component_on_remove.
  destruct (dict_get (components (ents w e)) ct) as [c0|] eqn:E; simpl; rewrite ?upd_eq; simpl.
  - split; [done|]. split; [apply dict_get_del_eq|]. split.
    + intros c [= <-]. by rewrite upd_eq.
    + split; [|done]. intros ct' Hne. by apply dict_get_del_ne.
  - by rewrite E.
Qed.

Lemma list_remove_elem {A} `{EqDecision A} (x y : A) (l : list A) :
  y ∈ list_remove x l → y ∈ l.
Proof.
  induction l as [|z l IH]; simpl; [done|].
  destruct (decide (x = z)); rewrite !elem_of_cons; naive_solver.
Qed.

Lemma list_remove_other {A} `{EqDecision A} (x y : A) (l : list A) :
  y ≠ x → y ∈ l → y ∈ list_remove x l.
Proof.
  intros Hne. induction l as [|z l IH]; simpl; [done|].
  destruct (decide (x = z)) as [->|]; rewrite !elem_of_cons; naive_solver.
Qed.

Lemma list_remove_NoDup {A} `{EqDecision A} (x : A) (l : list A) :
  NoDup l → NoDup (list_remove x l) ∧ x ∉ list_remove x l.
Proof.
  induction l as [|z l IH]; simpl; [intros _; split; [constructor|apply not_elem_of_nil]|].
  intros [Hz Hl]%NoDup_cons. destruct (decide (x = z)) as [->|Hne]; [done|].
  destruct (IH Hl) as [IH1 IH2]. split.
  - apply NoDup_cons. split; [|done]. intros Hin. by apply Hz, (list_remove_elem x).
  - rewrite elem_of_cons. naive_solver.
Qed.

(** X3. Tags behave as a set: [add_tag] and [remove_tag] keep the tag list
    free of duplicates; after [add_tag(t)] the entity has [t], after
    [remove_tag(t)] on a duplicate-free list it has not, and neither
    changes whether the entity has any other tag. *)
Theorem tags_are_a_set (tag : string) (e : ref) (w : World) :
  NoDup (tags (ents w e)) →
  (NoDup (tags (ents (Entity_add_tag tag e w) e)) ∧
   Entity_has_tag tag e (Entity_add_tag tag e w) = true ∧
   ∀ t, t ≠ tag → Entity_has_tag t e (Entity_add_tag tag e w) = Entity_has_tag t e w) ∧
  (NoDup (tags (ents (Entity_remove_tag tag e w) e)) ∧
   Entity_has_tag tag e (Entity_remove_tag tag e w) = false ∧
   ∀ t, t ≠ tag → Entity_has_tag t e (Entity_remove_tag tag e w) = Entity_has_tag t e w).
Proof.
  intros Hnd. unfold Entity_add_tag, Entity_remove_tag, Entity_has_tag, list_has.
  split.
  - case_bool_decide as Hin.
    + split; [done|]. split; [by apply bool_decide_eq_true|done].
    + simpl. rewrite upd_eq. simpl. split; [|split].
      * apply NoDup_app. split; [done|]. split; [|apply NoDup_singleton].
        intros x Hx ->%list_elem_of_singleton. done.
      * apply bool_decide_eq_true. apply elem_of_app. right. by apply list_elem_of_singleton.
      * intros t Hne. apply bool_decide_ext. rewrite elem_of_app, list_elem_of_singleton.
        naive_solver.
  - case_bool_decide as Hin.
    + simpl. rewrite upd_eq. simpl. destruct (list_remove_NoDup tag _ Hnd) as [H1 H2].
      split; [done|]. split; [by apply bool_decide_eq_false|].
      intros t Hne. apply bool_decide_ext. split; [apply list_remove_elem|by apply list_remove_other].
    + split; [done|]. split; [by apply bool_decide_eq_false|done].
Qed.

Lemma tags_are_a_set_witness :
  Entity_has_tag "t" O (Entity_remove_tag "t" O solo) = false.
Proof.
  apply (tags_are_a_set "t" O solo). apply NoDup_singleton.
Defined.

Lemma Entity_destroy_ents (e r : ref) (w : World) :
  ents (Entity_destroy e w) r
  = if decide (r = e)
    then mkEntity (entity_id (ents w e)) (name (ents w e)) [] (tags (ents w e)) false true
    else ents w r.
Proof.
  unfold Entity_destroy. rewrite fold_on_remove. simpl. case_decide as Hd.
  - subst r. by rewrite !upd_eq.
  - by rewrite !upd_ne.
Qed.

Lemma Entity_destroy_manager (e : ref) (w : World) :
  manager (Entity_destroy e w) = manager w.
Proof. unfold Entity_destroy. by rewrite fold_on_remove. Qed.

(** X4. [destroy] is idempotent: a second call leaves every entity, every
    component and the manager as the first call left them; the destroyed
    entity is inactive, marked and without components, and its [update]
    does nothing. *)
Theorem destroy_idempotent (behaviour : cref → Q → World → list Call) (dt : Q)
    (e : ref) (w : World) :
  same_store (Entity_destroy e w) (Entity_destroy e (Entity_destroy e w)) ∧
  active (ents (Entity_destroy e w) e) = false ∧
  marked_for_destruction (ents (Entity_destroy e w) e) = true ∧
  components (ents (Entity_destroy e w) e) = [] ∧
  Entity_update behaviour dt e (Entity_destroy e w) = Entity_destroy e w.
Proof.
  pose proof (Entity_destroy_ents e e w) as He. rewrite decide_True in He by done.
  split; [|split; [by rewrite He|split; [by rewrite He|split; [by rewrite He|]]]].
  - split; [|split].
    + intros r. rewrite (Entity_destroy_ents e r (Entity_destroy e w)).
      case_decide as Hd; [|done]. subst r. by rewrite He.
    + intros c. by rewrite Entity_destroy_comps.
    + by rewrite Entity_destroy_manager.
  - unfold Entity_update. by rewrite He.
Qed.

(** * Further properties: the entity manager *)

(** X5. Destroy-then-query: right after [destroy] the entity has no
    component of any type and no component query returns it, while the
    manager still finds it by id and by tag as before. *)
Theorem destroy_then_query (e : ref) (w : World) :
  (∀ ct, Entity_get_component ct e (Entity_destroy e w) = None) ∧
  (∀ ct, e ∉ EntityManager_get_entities_with_component ct (Entity_destroy e w)) ∧
  (∀ id, EntityManager_get_entity id (Entity_destroy e w) = EntityManager_get_entity id w) ∧
  (∀ tag, EntityManager_get_entities_with_tag tag (Entity_destroy e w)
          = EntityManager_get_entities_with_tag tag w).
Proof.
  split; [intros ct; apply Entity_destroy_get_component|]. split; [|split].
  - intros ct. unfold EntityManager_get_entities_with_component.
    intros [Hhas _]%list_elem_of_filter. revert Hhas.
    unfold Entity_has_component, dict_has.
    pose proof (Entity_destroy_get_component ct e w) as Hnone.
    unfold Entity_get_component in Hnone. by rewrite Hnone.
  - intros id. unfold EntityManager_get_entity. by rewrite Entity_destroy_manager.
  - intros tag. unfold EntityManager_get_entities_with_tag. by rewrite Entity_destroy_manager.
Qed.

Lemma add_fold_to_remove (w : World) (l : list ref) (m : EntityManager) :
  entities_to_remove (fold_left (EntityManager_add_one w) l m) = entities_to_remove m.
Proof. revert m. induction l as [|e l IH]; intros m; cbn [fold_left]; [done|]. by rewrite IH. Qed.

Lemma remove_fold_stays_out (w : World) (l : list string) (m : EntityManager) (id : string) :
  dict_get (entities m) id = None →
  dict_get (entities (fold_left (EntityManager_remove_one w) l m)) id = None.
Proof.
  revert m. induction l as [|id0 l IH]; intros m Hm; simpl; [done|].
  apply IH. rewrite remove_one_get. by case_decide.
Qed.

Lemma remove_fold_gone (w : World) (l : list string) (m : EntityManager) (id : string) :
  id ∈ l → dict_get (entities (fold_left (EntityManager_remove_one w) l m)) id = None.
Proof.
  revert m. induction l as [|id0 l IH]; intros m Hin; simpl; [by apply elem_of_nil in Hin|].
  destruct (decide (id0 = id)) as [->|Hne].
  - apply remove_fold_stays_out. rewrite remove_one_get. by rewrite decide_True.
  - apply IH. apply elem_of_cons in Hin as [?|?]; [by subst|done].
Qed.

Lemma remove_fold_from (w : World) (l : list string) (m : EntityManager) (id : string) (e : ref) :
  dict_get (entities (fold_left (EntityManager_remove_one w) l m)) id = Some e →
  dict_get (entities m) id = Some e.
Proof.
  revert m. induction l as [|id0 l IH]; intros m; simpl; [done|].
  intros H. apply IH in H. rewrite remove_one_get in H. by case_decide.
Qed.

(** X6. Deferred removal: [remove_entity(id)] changes no lookup by itself
    and does nothing at all for an id that is not in the table; every id
    that is in the removal queue when [update(dt)] starts is out of the
    table when it returns. *)
Theorem deferred_removal (behaviour : cref → Q → World → list Call) (dt : Q)
    (id : string) (w : World) :
  (EntityManager_get_entity id w = None → EntityManager_remove_entity id w = w) ∧
  (∀ id', EntityManager_get_entity id' (EntityManager_remove_entity id w)
          = EntityManager_get_entity id' w) ∧
  (id ∈ entities_to_remove (manager w) →
   EntityManager_get_entity id (EntityManager_update behaviour dt w) = None) ∧
  (is_Some (EntityManager_get_entity id w) →
   EntityManager_get_entity id
     (EntityManager_update behaviour dt (EntityManager_remove_entity id w)) = None).
Proof.
  assert (Hq : ∀ w0, id ∈ entities_to_remove (manager w0) →
                     EntityManager_get_entity id (EntityManager_update behaviour dt w0) = None).
  { intros w0 Hin. unfold EntityManager_update, EntityManager_get_entity,
      EntityManager_process_entity_removals. simpl.
    apply remove_fold_gone.
    pose proof (EntityManager_update_pass_steady behaviour dt
                  (dict_values (entities (manager (EntityManager_process_entity_additions w0))))
                  (EntityManager_process_entity_additions w0)) as (_ & _ & _ & Hgrow).
    apply Hgrow. unfold EntityManager_process_entity_additions. simpl.
    by rewrite add_fold_to_remove. }
  split; [|split; [|split]].
  - unfold EntityManager_get_entity, EntityManager_remove_entity, dict_has. by intros ->.
  - intros id'. unfold EntityManager_get_entity, EntityManager_remove_entity, dict_has.
    by destruct (dict_get (entities (manager w)) id).
  - apply Hq.
  - intros [e He]. apply Hq. unfold EntityManager_get_entity in He.
    unfold EntityManager_remove_entity, dict_has. rewrite He. simpl.
    apply elem_of_app. right. by apply list_elem_of_singleton.
Qed.

Lemma deferred_removal_witness :
  EntityManager_get_entity "e"
    (EntityManager_update quiet 1
       (EntityManager_remove_entity "e"
          (EntityManager_update quiet 1 (EntityManager_add_entity O solo)))) = None.
Proof.
  apply (deferred_removal quiet 1 "e"
           (EntityManager_update quiet 1 (EntityManager_add_entity O solo))).
  by exists O.
Defined.

Lemma remove_fold_to_add (w : World) (l : list string) (m : EntityManager) :
  entities_to_add (fold_left (EntityManager_remove_one w) l m) = entities_to_add m.
Proof.
  revert m. induction l as [|id l IH]; intros m; simpl; [done|]. rewrite IH.
  unfold EntityManager_remove_one. by destruct (dict_get (entities m) id).
Qed.

(** X7. Nothing enters the table after the flush of the pending additions:
    whatever [get_entity] finds after [update(dt)] was put there by that
    flush, so an entity submitted by a component during the update pass
    stays invisible, and queued, until the next call. *)
Theorem added_during_pass_invisible (behaviour : cref → Q → World → list Call) (dt : Q)
    (w : World) :
  (∀ id e, EntityManager_get_entity id (EntityManager_update behaviour dt w) = Some e →
           EntityManager_get_entity id (EntityManager_process_entity_additions w) = Some e) ∧
  entities_to_add (manager (EntityManager_update behaviour dt w))
  = entities_to_add (manager (before_removals behaviour dt w)) ∧
  entities_to_remove (manager (EntityManager_update behaviour dt w)) = [].
Proof.
  split; [|split; [apply remove_fold_to_add|reflexivity]].
  intros id e. unfold EntityManager_update, EntityManager_get_entity,
    EntityManager_process_entity_removals. simpl. intros H%remove_fold_from.
  pose proof (EntityManager_update_pass_steady behaviour dt
                (dict_values (entities (manager (EntityManager_process_entity_additions w))))
                (EntityManager_process_entity_additions w)) as (Hent & _).
  unfold before_removals in H. by rewrite Hent in H.
Qed.

(** X8. The flush takes every pending entity: an entity of the pending list
    whose id no other pending entity shares is, after [update(dt)], found
    by [get_entity] under its id and by [get_entities_with_tag] under each
    of its tags, unless its id was queued for removal during the call. *)
Theorem pending_flushed (behaviour : cref → Q → World → list Call) (dt : Q)
    (e : ref) (w : World) :
  e ∈ entities_to_add (manager w) →
  (∀ e', e' ∈ entities_to_add (manager w) →
         entity_id (ents w e') = entity_id (ents w e) → e' = e) →
  (entity_id (ents w e) ∉ entities_to_remove (manager (before_removals behaviour dt w))) →
  EntityManager_get_entity (entity_id (ents w e)) (EntityManager_update behaviour dt w) = Some e ∧
  ∀ tag, tag ∈ tags (ents w e) →
         e ∈ EntityManager_get_entities_with_tag tag (EntityManager_update behaviour dt w).
Proof.
  intros Hin Huniq Hq.
  destruct (add_fold_member w _ (manager w) e Hin Huniq) as [Ha1 Ha2].
  pose proof (EntityManager_update_pass_steady behaviour dt
                (dict_values (entities (manager (EntityManager_process_entity_additions w))))
                (EntityManager_process_entity_additions w)) as (Hent & Hidx & _ & _).
  fold (before_removals behaviour dt w) in Hent, Hidx.
  destruct (remove_fold_other (before_removals behaviour dt w)
              (entities_to_remove (manager (before_removals behaviour dt w)))
              (manager (before_removals behaviour dt w)) _ Hq) as [Hr1 Hr2].
  assert (Hget : EntityManager_get_entity (entity_id (ents w e))
                   (EntityManager_update behaviour dt w) = Some e).
  { unfold EntityManager_update, EntityManager_get_entity,
      EntityManager_process_entity_removals. simpl. rewrite Hr1, Hent. exact Ha1. }
  split; [exact Hget|]. intros tag Ht. apply get_entities_with_tag_elem.
  exists (entity_id (ents w e)). split; [|exact Hget].
  unfold index_lists, EntityManager_update, EntityManager_process_entity_removals. simpl.
  apply Hr2. rewrite Hidx. by apply Ha2.
Qed.

Lemma pending_flushed_witness :
  EntityManager_get_entity "e" (EntityManager_update quiet 1 (EntityManager_add_entity O solo))
  = Some O.
Proof.
  apply (pending_flushed quiet 1 O (EntityManager_add_entity O solo)).
  - apply list_elem_of_singleton. reflexivity.
  - intros e' He' _. by apply list_elem_of_singleton in He'.
  - vm_compute. apply not_elem_of_nil.
Defined.

(** X9. The two tag queries agree while the index is consistent: in a table
    without duplicate keys whose tag index is consistent,
    [get_entities_with_tag(t)] and
    [get_entities_with_tags_and_components([t])] return the same entities. *)
Theorem tag_queries_agree (tag : string) (e : ref) (w : World) :
  NoDup (dict_keys (entities (manager w))) →
  tag_index_consistent w →
  e ∈ EntityManager_get_entities_with_tag tag w
  ↔ e ∈ EntityManager_get_entities_with_tags_and_components [tag] [] w.
Proof.
  intros Hnd [C1 C2]. rewrite get_entities_with_tag_elem.
  unfold EntityManager_get_entities_with_tags_and_components, EntityManager_get_entity.
  rewrite list_elem_of_filter. simpl. rewrite !andb_true_r.
  unfold Entity_has_tag, list_has. rewrite bool_decide_eq_true. split.
  - intros (id & Hl & Hget). destruct (C1 _ _ Hl) as (e' & Hget' & Ht).
    rewrite Hget in Hget'. injection Hget' as <-. split; [done|].
    apply dict_get_elem in Hget. by apply (list_elem_of_fmap_2 snd) in Hget.
  - intros [Ht [k Hin]%dict_values_elem]. exists k.
    assert (Hget : dict_get (entities (manager w)) k = Some e) by by apply dict_elem_get.
    split; [by eapply C2|done].
Qed.

Lemma tag_queries_agree_witness :
  O ∈ EntityManager_get_entities_with_tag "t"
        (EntityManager_update quiet 1 (EntityManager_add_entity O solo))
  ↔ O ∈ EntityManager_get_entities_with_tags_and_components ["t"] []
          (EntityManager_update quiet 1 (EntityManager_add_entity O solo)).
Proof.
  apply (tag_queries_agree "t" O
           (EntityManager_update quiet 1 (EntityManager_add_entity O solo))).
  - apply (bool_decide_unpack _). vm_compute. exact I.
  - apply (update_keeps_consistency quiet 1 (EntityManager_add_entity O solo)).
    + intros c dt w k Hk. by apply elem_of_nil in Hk.
    + apply table_ok_no_entities. reflexivity.
    + intros e1 e2 H1 H2 _. simpl in H1, H2.
      apply list_elem_of_singleton in H1, H2. congruence.
    + apply tag_index_consistent_add_entity, tag_index_consistent_init.
Defined.

Lemma destroy_fold_ents (l : list ref) (w : World) (r : ref) :
  ents (fold_left (λ w e, Entity_destroy e w) l w) r
  = if bool_decide (r ∈ l) then destroyed (ents w r) else ents w r.
Proof.
  revert w. induction l as [|e l IH]; intros w; simpl; [done|].
  rewrite IH, Entity_destroy_ents.
  destruct (decide (r = e)) as [->|Hne].
  - rewrite (bool_decide_eq_true_2 (e ∈ e :: l)) by (apply elem_of_cons; by left).
    by case_bool_decide.
  - case_bool_decide as Hin.
    + by rewrite bool_decide_eq_true_2 by (apply elem_of_cons; by right).
    + rewrite bool_decide_eq_false_2; [done|]. intros [?|?]%elem_of_cons; done.
Qed.

(** X10. [clear] empties the manager and destroys exactly the tracked
    entities: table, queues and index are as in a new manager, each entity
    of the table is left inactive, marked and without components, and
    every other entity and every component object is untouched. *)
Theorem clear_destroys_tracked (w : World) :
  manager (EntityManager_clear w) = EntityManager_init ∧
  (∀ r, ents (EntityManager_clear w) r
        = if bool_decide (r ∈ dict_values (entities (manager w)))
          then destroyed (ents w r) else ents w r) ∧
  (∀ c, comps (EntityManager_clear w) c = comps w c).
Proof.
  unfold EntityManager_clear. split; [done|]. split.
  - intros r. simpl. apply destroy_fold_ents.
  - intros c. simpl. generalize (dict_values (entities (manager w))) as l. intros l.
    revert w. induction l as [|e l IH]; intros w; simpl; [done|].
    by rewrite IH, Entity_destroy_comps.
Qed.

(** * Further properties: the spatial grid *)

Lemma Rect_colliderect_sym (a b : Rect) : Rect_colliderect a b = Rect_colliderect b a.
Proof.
  unfold Rect_colliderect.
  destruct (rect_w a =? 0)%Z, (rect_h a =? 0)%Z, (rect_w b =? 0)%Z, (rect_h b =? 0)%Z;
    simpl; try reflexivity.
  repeat match goal with |- context [(?x <? ?y)%Z] => destruct (x <? y)%Z end; reflexivity.
Qed.

(** X11. The narrow phase is symmetric: [check_collision(a, b)] and
    [check_collision(b, a)] give the same answer, and fail together. *)
Theorem check_collision_symmetric (e1 e2 : ref) (w : World) (g : SpatialGrid) :
  fst <$> SpatialGrid_check_collision e1 e2 w g = fst <$> SpatialGrid_check_collision e2 e1 w g.
Proof.
  unfold SpatialGrid_check_collision.
  destruct (Entity_get_component "transform" e1 w) as [t1|],
    (Entity_get_component "collision" e1 w) as [c1|],
    (Entity_get_component "transform" e2 w) as [t2|],
    (Entity_get_component "collision" e2 w) as [c2|]; try reflexivity.
  destruct (attr_position (comps w t1)) as [p1|], (attr_size (comps w c1)) as [s1|],
    (attr_position (comps w t2)) as [p2|], (attr_size (comps w c2)) as [s2|]; try reflexivity.
  simpl. by rewrite Rect_colliderect_sym.
Qed.

Lemma py_int_nonneg (q : Q) : (0 <= q)%Q → (0 ≤ py_int q)%Z.
Proof. intros H. apply (py_int_mono 0 q) in H. exact H. Qed.

(** In a grid built with a positive cell size, the coordinates of the world
    fall into its columns (or rows). *)
Lemma world_index (extent cs : Z) (x : Q) :
  (0 < cs)%Z → (0 <= x)%Q → (x <= inject_Z extent)%Q →
  (0 ≤ py_int (x / inject_Z cs) ≤ extent / cs)%Z.
Proof.
  intros Hcs H0 Hx.
  assert (Hq : (0 < inject_Z cs)%Q) by (change 0%Q with (inject_Z 0); by rewrite <- Zlt_Qlt).
  split.
  - apply py_int_nonneg. apply Qle_shift_div_l; [done|]. by rewrite Qmult_0_l.
  - rewrite Zdiv_Qdiv.
    assert (Hw : (0 <= inject_Z extent / inject_Z cs)%Q).
    { apply Qle_shift_div_l; [done|]. rewrite Qmult_0_l. by apply (Qle_trans _ x). }
    apply (Qdiv_le_pos _ _ _ Hq), py_int_mono in Hx.
    unfold py_int in Hx at 2. apply Qle_bool_iff in Hw. by rewrite Hw in Hx.
Qed.

(** The cell of the centre belongs to the cells of a box of non-negative
    extent whose centre is in the world. *)
Lemma centre_cell (W H cs : Z) (g : SpatialGrid) (pos size : Q * Q) :
  SpatialGrid_init W H cs = Some g → (0 < cs)%Z →
  (0 <= size.1)%Q → (0 <= size.2)%Q →
  (0 <= pos.1)%Q → (pos.1 <= inject_Z W)%Q → (0 <= pos.2)%Q → (pos.2 <= inject_Z H)%Q →
  (py_int (pos.1 / inject_Z cs), py_int (pos.2 / inject_Z cs)) ∈ cells_of g pos size.
Proof.
  unfold SpatialGrid_init. destruct (Z.eqb_spec cs 0) as [|_]; [done|]. intros [= <-].
  intros Hcs S1 S2 X0 X1 Y0 Y1. apply cells_of_elem. simpl. unfold cell_min, cell_max.
  assert (Hq : (0 < inject_Z cs)%Q) by (change 0%Q with (inject_Z 0); by rewrite <- Zlt_Qlt).
  pose proof (world_index W cs _ Hcs X0 X1). pose proof (world_index H cs _ Hcs Y0 Y1).
  assert (L : ∀ x s : Q, (0 <= s)%Q →
            (py_int ((x - s / 2) / inject_Z cs) ≤ py_int (x / inject_Z cs))%Z).
  { intros x s Hs. apply py_int_mono, Qdiv_le_pos; [done|].
    setoid_replace (x - s / 2)%Q with (x + - (s / 2))%Q using relation Qeq by ring.
    rewrite <- (Qplus_0_r x) at 2. apply Qplus_le_r.
    apply (Qopp_le_compat 0). apply Qmult_le_0_compat; [done|]. discriminate. }
  assert (U : ∀ x s : Q, (0 <= s)%Q →
            (py_int (x / inject_Z cs) ≤ py_int ((x + s / 2) / inject_Z cs))%Z).
  { intros x s Hs. apply py_int_mono, Qdiv_le_pos; [done|].
    rewrite <- (Qplus_0_r x) at 1. apply Qplus_le_r.
    apply Qmult_le_0_compat; [done|]. discriminate. }
  pose proof (L pos.1 size.1 S1). pose proof (L pos.2 size.2 S2).
  pose proof (U pos.1 size.1 S1). pose proof (U pos.2 size.2 S2). lia.
Qed.

Lemma centre_cell_registered (W H cs : Z) (entities : list ref) (w : World)
    (g g' : SpatialGrid) (a : ref) (pos size : Q * Q) :
  SpatialGrid_init W H cs = Some g → (0 < cs)%Z →
  SpatialGrid_update entities w g = Some g' →
  NoDup ((λ e, entity_id (ents w e)) <$> entities) →
  a ∈ entities → active (ents w a) = true → box_of a w = Some (pos, size) →
  (0 <= size.1)%Q → (0 <= size.2)%Q →
  (0 <= pos.1)%Q → (pos.1 <= inject_Z W)%Q → (0 <= pos.2)%Q → (pos.2 <= inject_Z H)%Q →
  a ∈ default [] (grid g' !! (py_int (pos.1 / inject_Z cs), py_int (pos.2 / inject_Z cs))) ∧
  (cell_size g' = cs ∧ cols g' = (W / cs + 1)%Z ∧ rows g' = (H / cs + 1)%Z).
Proof.
  intros Hinit Hcs Hup Hnd Ha Aa Ba S1 S2 X0 X1 Y0 Y1.
  destruct (SpatialGrid_update_rebuilt _ _ _ _ Hnd Hup) as ((E1 & E2 & E3) & _ & Hc).
  destruct (Hc a _ _ Ha Aa Ba) as (_ & _ & Ga).
  split; [apply Ga; by apply (centre_cell W H cs)|].
  unfold SpatialGrid_init in Hinit. destruct (cs =? 0)%Z; [done|].
  injection Hinit as <-. by rewrite E1, E2, E3.
Qed.

(** X12. The grid covers the world: after a rebuild of a grid constructed
    with a positive cell size, an active entity with transform and
    collision components, non-negative extents and its centre inside the
    world is registered in the cell of its centre. *)
Theorem centre_inside_is_registered (W H cs : Z) (entities : list ref) (w : World)
    (g g' : SpatialGrid) (a : ref) (pos size : Q * Q) :
  SpatialGrid_init W H cs = Some g → (0 < cs)%Z →
  SpatialGrid_update entities w g = Some g' →
  NoDup ((λ e, entity_id (ents w e)) <$> entities) →
  a ∈ entities → active (ents w a) = true → box_of a w = Some (pos, size) →
  (0 <= size.1)%Q → (0 <= size.2)%Q →
  (0 <= pos.1)%Q → (pos.1 <= inject_Z W)%Q → (0 <= pos.2)%Q → (pos.2 <= inject_Z H)%Q →
  (py_int (pos.1 / inject_Z cs), py_int (pos.2 / inject_Z cs)) ∈ assigned g' w a ∧
  a ∈ default [] (grid g' !! (py_int (pos.1 / inject_Z cs), py_int (pos.2 / inject_Z cs))).
Proof.
  intros Hinit Hcs Hup Hnd Ha Aa Ba S1 S2 X0 X1 Y0 Y1.
  destruct (SpatialGrid_update_rebuilt _ _ _ _ Hnd Hup) as (_ & _ & Hc).
  destruct (Hc a _ _ Ha Aa Ba) as (_ & Ea & Ga).
  pose proof (centre_cell W H cs g pos size Hinit Hcs S1 S2 X0 X1 Y0 Y1) as Hcell.
  split; [|by apply Ga]. unfold assigned. rewrite Ea. simpl. by apply elem_of_list_to_set.
Qed.

Lemma registered_more (l : list ref) (w : World) (g : SpatialGrid) (e : ref) :
  registered l w g → registered (l ++ [e]) w g.
Proof.
  intros [K G]. split.
  - intros id s Hs. destruct (K id s Hs) as (e' & Hin & ?). exists e'.
    split; [apply elem_of_app; by left|done].
  - intros cell e' Hin. destruct (G cell e' Hin) as (? & ?).
    split; [apply elem_of_app; by left|done].
Qed.

Lemma update_entity_registered (l : list ref) (w : World) (g g1 : SpatialGrid) (e : ref) :
  registered l w g → SpatialGrid_update_entity w g e = Some g1 → registered (l ++ [e]) w g1.
Proof.
  intros Hr. unfold SpatialGrid_update_entity.
  destruct (active (ents w e)) eqn:Ha; simpl; [|intros [= <-]; by apply registered_more].
  pose proof (box_of_components e w) as Hbox.
  destruct (Entity_get_component "transform" e w) as [t|];
    [|intros [= <-]; by apply registered_more].
  destruct (Entity_get_component "collision" e w) as [c|];
    [|intros [= <-]; by apply registered_more].
  destruct (attr_position (comps w t)) as [pos|]; [|done].
  destruct (attr_size (comps w c)) as [size|]; [|done].
  simpl in *. destruct (cell_size g =? 0)%Z; [done|]. intros [= <-].
  set (g' := with_grid g (grid g) (<[entity_id (ents w e) := ∅]> (entity_cells g))).
  destruct (add_to_cell_fold e (entity_id (ents w e)) (cells_of g pos size) g')
    as (_ & G1 & C1 & O1).
  assert (He : e ∈ l ++ [e]) by (apply elem_of_app; right; by apply list_elem_of_singleton).
  destruct (registered_more l w g e Hr) as [K G]. split.
  - intros id s. destruct (decide (id = entity_id (ents w e))) as [->|Hne].
    + intros _. exists e. by rewrite Hbox.
    + rewrite O1 by done. simpl. rewrite lookup_insert_ne by done. apply K.
  - intros cell e'. rewrite G1. intros [Hold|[-> _]]; [by apply (G cell)|]. by rewrite Hbox.
Qed.

Lemma SpatialGrid_update_registered (entities : list ref) (w : World) (g g' : SpatialGrid) :
  SpatialGrid_update entities w g = Some g' → registered entities w g'.
Proof.
  unfold SpatialGrid_update. revert g'.
  induction entities as [|e l IH] using rev_ind; intros g'.
  - intros [= <-]. split.
    + intros id s H. simpl in H. by rewrite lookup_empty in H.
    + intros cell e H. simpl in H. rewrite lookup_empty in H. by apply elem_of_nil in H.
  - rewrite foldl_snoc. destruct (foldl _ _ l) as [g1|]; [|done]. simpl.
    apply update_entity_registered. by apply IH.
Qed.

(** X13. Candidates are sound: after a rebuild, every entity returned by
    [get_potential_collisions(a)] belongs to the rebuilt list, is active,
    has a transform and a collision component and an id other than [a]'s,
    and no entity is returned twice. *)
Theorem candidates_are_sound (entities : list ref) (w : World) (g g' : SpatialGrid) (a : ref) :
  SpatialGrid_update entities w g = Some g' →
  NoDup (SpatialGrid_get_potential_collisions a w g').1 ∧
  ∀ b, b ∈ (SpatialGrid_get_potential_collisions a w g').1 →
       b ∈ entities ∧ entity_id (ents w b) ≠ entity_id (ents w a) ∧
       active (ents w b) = true ∧ is_Some (box_of b w).
Proof.
  intros [_ G]%SpatialGrid_update_registered. split.
  - unfold SpatialGrid_get_potential_collisions.
    destruct (entity_cells g' !! entity_id (ents w a)); simpl;
      [apply NoDup_elements|apply NoDup_nil_2].
  - intros b (cell & _ & Hin & Hid & Ha)%get_potential_collisions_elem.
    destruct (G cell b Hin) as (? & _ & ?). done.
Qed.

Lemma candidates_are_sound_witness :
  NoDup (SpatialGrid_get_potential_collisions 0%nat boxes_inside (rebuild boxes_inside)).1.
Proof.
  apply (candidates_are_sound [0; 1]%nat boxes_inside small_grid (rebuild boxes_inside) 0%nat).
  vm_compute. reflexivity.
Defined.

(** X14. Entities the grid skips: an entity of the rebuilt list (with
    pairwise distinct ids) that is inactive or lacks a transform or a
    collision component is in no cell and has no recorded cells; it gets
    an empty candidate list and is nobody's candidate. *)
Theorem skipped_entities_are_absent (entities : list ref) (w : World) (g g' : SpatialGrid)
    (a : ref) :
  SpatialGrid_update entities w g = Some g' →
  NoDup ((λ e, entity_id (ents w e)) <$> entities) →
  a ∈ entities →
  active (ents w a) = false ∨ box_of a w = None →
  entity_cells g' !! entity_id (ents w a) = None ∧
  (∀ cell, a ∉ default [] (grid g' !! cell)) ∧
  (SpatialGrid_get_potential_collisions a w g').1 = [] ∧
  (∀ b, a ∉ (SpatialGrid_get_potential_collisions b w g').1).
Proof.
  intros [K G]%SpatialGrid_update_registered Hnd Ha Hskip.
  assert (Hno : ¬ (active (ents w a) = true ∧ is_Some (box_of a w))).
  { intros [Hact [x Hx]]. destruct Hskip as [Hs|Hs]; congruence. }
  assert (Hcells : entity_cells g' !! entity_id (ents w a) = None).
  { destruct (entity_cells g' !! entity_id (ents w a)) as [s|] eqn:E; [|done].
    destruct (K _ _ E) as (e & Hin & Hid & Hact & Hbox).
    assert (e = a) by by apply (NoDup_fmap_eq (λ e, entity_id (ents w e)) entities).
    subst e. destruct Hno. done. }
  assert (Hgrid : ∀ cell, a ∉ default [] (grid g' !! cell)).
  { intros cell Hin. destruct (G cell a Hin) as (_ & ? & ?). by destruct Hno. }
  split; [done|]. split; [done|]. split.
  - unfold SpatialGrid_get_potential_collisions. by rewrite Hcells.
  - intros b (cell & _ & Hin & _)%get_potential_collisions_elem. by apply (Hgrid cell).
Qed.

Lemma get_nearby_entities_elem (x y radius : Q) (w : World) (g : SpatialGrid) (l : list ref)
    (e : ref) :
  SpatialGrid_get_nearby_entities x y radius w g = Some l →
  e ∈ l ↔
  active (ents w e) = true ∧
  ∃ col row,
    (Z.max 0 (py_int ((x - radius) / inject_Z (cell_size g))) ≤ col
     ≤ Z.min (cols g - 1) (py_int ((x + radius) / inject_Z (cell_size g))))%Z ∧
    (Z.max 0 (py_int ((y - radius) / inject_Z (cell_size g))) ≤ row
     ≤ Z.min (rows g - 1) (py_int ((y + radius) / inject_Z (cell_size g))))%Z ∧
    e ∈ default [] (grid g !! (col, row)).
Proof.
  unfold SpatialGrid_get_nearby_entities. destruct (cell_size g =? 0)%Z; [done|].
  intros [= <-]. rewrite elem_of_elements, elem_of_list_to_set, list_elem_of_bind.
  unfold py_range. split.
  - intros (col & (row & (e' & Hif & He')%list_elem_of_bind & Hr%elem_of_seqZ)%list_elem_of_bind
            & Hc%elem_of_seqZ).
    destruct (active (ents w e')) eqn:Ha; [|by apply elem_of_nil in Hif].
    apply list_elem_of_singleton in Hif. subst e'. split; [done|].
    exists col, row. repeat split; try done; lia.
  - intros (Ha & col & row & Hc & Hr & Hin). exists col. split; [|apply elem_of_seqZ; lia].
    apply list_elem_of_bind. exists row. split; [|apply elem_of_seqZ; lia].
    apply list_elem_of_bind. exists e. split; [|done]. rewrite Ha.
    by apply list_elem_of_singleton.
Qed.

(** X15. The radius query finds what is near: in a grid constructed with a
    positive cell size and rebuilt from entities with distinct ids,
    [get_nearby_entities(x, y, radius)] returns every active entity with
    transform and collision components, non-negative extents and its
    centre inside the world and within [radius] of [(x, y)] along both
    axes; it returns only active entities of the list, none twice. *)
Theorem nearby_entities_found (W H cs : Z) (entities : list ref) (w : World)
    (g g' : SpatialGrid) (x y radius : Q) (a : ref) (pos size : Q * Q) :
  SpatialGrid_init W H cs = Some g → (0 < cs)%Z →
  SpatialGrid_update entities w g = Some g' →
  NoDup ((λ e, entity_id (ents w e)) <$> entities) →
  a ∈ entities → active (ents w a) = true → box_of a w = Some (pos, size) →
  (0 <= size.1)%Q → (0 <= size.2)%Q →
  (0 <= pos.1)%Q → (pos.1 <= inject_Z W)%Q → (0 <= pos.2)%Q → (pos.2 <= inject_Z H)%Q →
  (x - radius <= pos.1)%Q → (pos.1 <= x + radius)%Q →
  (y - radius <= pos.2)%Q → (pos.2 <= y + radius)%Q →
  ∃ l, SpatialGrid_get_nearby_entities x y radius w g' = Some l ∧
       a ∈ l ∧ NoDup l ∧ ∀ e, e ∈ l → e ∈ entities ∧ active (ents w e) = true.
Proof.
  intros Hinit Hcs Hup Hnd Ha Aa Ba S1 S2 X0 X1 Y0 Y1 NX0 NX1 NY0 NY1.
  destruct (centre_cell_registered W H cs entities w g g' a pos size)
    as [Hcentre Hshape]; try done.
  destruct Hshape as (Ecs & Ecols & Erows).
  destruct (SpatialGrid_get_nearby_entities x y radius w g') as [l|] eqn:E.
  2: { unfold SpatialGrid_get_nearby_entities in E. rewrite Ecs in E.
       destruct (Z.eqb_spec cs 0); [lia|done]. }
  exists l. split; [done|]. split; [|split].
  - apply (get_nearby_entities_elem _ _ _ _ _ _ _ E). split; [done|].
    exists (py_int (pos.1 / inject_Z cs)), (py_int (pos.2 / inject_Z cs)).
    rewrite Ecs, Ecols, Erows.
    assert (Hq : (0 < inject_Z cs)%Q) by (change 0%Q with (inject_Z 0); by rewrite <- Zlt_Qlt).
    pose proof (world_index W cs _ Hcs X0 X1). pose proof (world_index H cs _ Hcs Y0 Y1).
    pose proof (py_int_mono _ _ (Qdiv_le_pos _ _ _ Hq NX0)).
    pose proof (py_int_mono _ _ (Qdiv_le_pos _ _ _ Hq NX1)).
    pose proof (py_int_mono _ _ (Qdiv_le_pos _ _ _ Hq NY0)).
    pose proof (py_int_mono _ _ (Qdiv_le_pos _ _ _ Hq NY1)).
    split; [lia|]. split; [lia|done].
  - unfold SpatialGrid_get_nearby_entities in E. destruct (cell_size g' =? 0)%Z; [done|].
    injection E as <-. apply NoDup_elements.
  - intros e (Hact & col & row & _ & _ & Hin)%(get_nearby_entities_elem _ _ _ _ _ _ _ E).
    apply SpatialGrid_update_registered in Hup as [_ G].
    destruct (G _ _ Hin) as (? & _). done.
Qed.

Lemma centre_inside_is_registered_witness :
  (0, 0)%Z ∈ assigned (rebuild boxes_inside) boxes_inside 0%nat.
Proof.
  apply (centre_inside_is_registered 100 100 100 [0; 1]%nat boxes_inside small_grid
           (rebuild boxes_inside) 0%nat (50, 50)%Q (10, 10)%Q).
  - reflexivity.
  - lia.
  - vm_compute. reflexivity.
  - apply (bool_decide_unpack _). vm_compute. exact I.
  - apply (bool_decide_unpack _). vm_compute. exact I.
  - reflexivity.
  - reflexivity.
  - vm_compute. congruence.
  - vm_compute. congruence.
  - vm_compute. congruence.
  - vm_compute. congruence.
  - vm_compute. congruence.
  - vm_compute. congruence.
Defined.

Lemma skipped_entities_are_absent_witness :
  (SpatialGrid_get_potential_collisions O solo
     (default small_grid (SpatialGrid_update [O] solo small_grid))).1 = [].
Proof.
  apply (skipped_entities_are_absent [O] solo small_grid
           (default small_grid (SpatialGrid_update [O] solo small_grid)) O).
  - vm_compute. reflexivity.
  - apply (bool_decide_unpack _). vm_compute. exact I.
  - apply list_elem_of_singleton. reflexivity.
  - right. reflexivity.
Defined.

Lemma nearby_entities_found_witness :
  ∃ l, SpatialGrid_get_nearby_entities 50 50 10 boxes_inside (rebuild boxes_inside) = Some l ∧
       1%nat ∈ l ∧ NoDup l ∧
       ∀ e, e ∈ l → e ∈ [0; 1]%nat ∧ active (ents boxes_inside e) = true.
Proof.
  apply (nearby_entities_found 100 100 100 [0; 1]%nat boxes_inside small_grid
           (rebuild boxes_inside) 50 50 10 1%nat (58, 50)%Q (10, 10)%Q).
  - reflexivity.
  - lia.
  - vm_compute. reflexivity.
  - apply (bool_decide_unpack _). vm_compute. exact I.
  - apply (bool_decide_unpack _). vm_compute. exact I.
  - reflexivity.
  - reflexivity.
  - vm_compute. congruence.
  - vm_compute. congruence.
  - vm_compute. congruence.
  - vm_compute. congruence.
  - vm_compute. congruence.
  - vm_compute. congruence.
  - vm_compute. congruence.
  - vm_compute. congruence.
  - vm_compute. congruence.
  - vm_compute. congruence.
Defined.

Lemma get_entities_by_tag_elem (tag : string) (w : World) (g : SpatialGrid) (e : ref) :
  e ∈ SpatialGrid_get_entities_by_tag tag w g ↔
  (∃ cell, e ∈ default [] (grid g !! cell)) ∧
  tag ∈ tags (ents w e) ∧ active (ents w e) = true.
Proof.
  unfold SpatialGrid_get_entities_by_tag.
  rewrite elem_of_elements, elem_of_list_to_set, list_elem_of_bind. split.
  - intros (l & (e' & Hif & He')%list_elem_of_bind & ([cell l'] & -> & Hl)%list_elem_of_fmap).
    apply elem_of_map_to_list in Hl. simpl in He'.
    unfold list_has in Hif. case_bool_decide as Ht; simpl in Hif; [|by apply elem_of_nil in Hif].
    destruct (active (ents w e')) eqn:Ha; [|by apply elem_of_nil in Hif].
    apply list_elem_of_singleton in Hif. subst e'. split; [|done].
    exists cell. by rewrite Hl.
  - intros ([cell Hin] & Ht & Ha).
    destruct (grid g !! cell) as [l|] eqn:E; [|by apply elem_of_nil in Hin].
    exists l. split.
    + apply list_elem_of_bind. exists e. split; [|done].
      unfold list_has. rewrite bool_decide_eq_true_2 by done. rewrite Ha.
      by apply list_elem_of_singleton.
    + apply list_elem_of_fmap. exists (cell, l). split; [done|]. by apply elem_of_map_to_list.
Qed.

(** X16. The grid's tag query reads the live tags: after a rebuild from
    entities with distinct ids, [get_entities_by_tag(t)] returns exactly
    the active entities of the list that were assigned a cell and carry
    [t] when the query is made, none twice. *)
Theorem grid_tag_query (entities : list ref) (w : World) (g g' : SpatialGrid)
    (tag : string) (e : ref) :
  SpatialGrid_update entities w g = Some g' →
  NoDup ((λ e, entity_id (ents w e)) <$> entities) →
  NoDup (SpatialGrid_get_entities_by_tag tag w g') ∧
  (e ∈ SpatialGrid_get_entities_by_tag tag w g' ↔
   e ∈ entities ∧ active (ents w e) = true ∧ assigned g' w e ≠ ∅ ∧ tag ∈ tags (ents w e)).
Proof.
  intros Hup Hnd. split; [apply NoDup_elements|].
  pose proof (SpatialGrid_update_registered _ _ _ _ Hup) as [_ G].
  destruct (SpatialGrid_update_rebuilt _ _ _ _ Hnd Hup) as (_ & Hg & Hc).
  rewrite get_entities_by_tag_elem. split.
  - intros ([cell Hin] & Ht & Ha). destruct (G _ _ Hin) as (Hl & _ & [[pos size] Hbox]).
    split; [done|]. split; [done|]. split; [|done].
    destruct (Hc e _ _ Hl Ha Hbox) as (_ & Ec & _).
    destruct (Hg _ _ Hin) as (_ & pos' & size' & Hbox' & Hcell).
    rewrite Hbox in Hbox'. injection Hbox' as <- <-.
    unfold assigned. rewrite Ec. simpl. intros Hempty.
    apply (elem_of_list_to_set (C := gset (Z * Z))) in Hcell. rewrite Hempty in Hcell.
    by apply not_elem_of_empty in Hcell.
  - intros (Hl & Ha & Hne & Ht). split; [|done].
    unfold assigned in Hne.
    destruct (entity_cells g' !! entity_id (ents w e)) as [s|] eqn:Es; [|done].
    apply SpatialGrid_update_registered in Hup as [K _].
    destruct (K _ _ Es) as (e' & Hl' & Hid & Ha' & [[pos size] Hbox]).
    assert (e' = e) by by apply (NoDup_fmap_eq (λ e, entity_id (ents w e)) entities).
    subst e'. destruct (Hc e _ _ Hl Ha Hbox) as (_ & Ec & Gc).
    rewrite Es in Ec. injection Ec as ->. simpl in Hne.
    destruct (cells_of g pos size) as [|cell cells] eqn:Ecells; [done|].
    exists cell. apply Gc. apply elem_of_cons. by left.
Qed.

Lemma grid_tag_query_witness :
  NoDup (SpatialGrid_get_entities_by_tag "t" boxes_inside (rebuild boxes_inside)).
Proof.
  apply (grid_tag_query [0; 1]%nat boxes_inside small_grid (rebuild boxes_inside) "t" 0%nat).
  - vm_compute. reflexivity.
  - apply (bool_decide_unpack _). vm_compute. exact I.
Defined.

(** * Further properties: the object pools *)

Section MorePoolFacts.
Context {T St : Type} `{EqDecision T}.
Variable factory_func : St → T * St.
Variable reset_func : T → St → St.

Lemma ObjectPool_get_counts (p : ObjectPool T) (s : St) :
  let p' := (ObjectPool_get factory_func p s).1.2 in
  length (active_objects p') = S (length (active_objects p)) ∧
  length (inactive_objects p') = pred (length (inactive_objects p)) ∧
  total_created p'
  = (total_created p + if decide (length (inactive_objects p) = 0%nat) then 1 else 0)%Z.
Proof.
  unfold ObjectPool_get. destruct (list_pop (inactive_objects p)) as [[o r]|] eqn:E.
  - apply list_pop_Some in E. simpl.
    rewrite update_peak_active, update_peak_inactive, update_peak_total. simpl.
    rewrite E, !length_app. simpl. rewrite decide_False by lia.
    split; [lia|]. split; [lia|lia].
  - assert (Hnil : inactive_objects p = []).
    { unfold list_pop in E. destruct (reverse (inactive_objects p)) eqn:Er; [|done].
      apply (f_equal reverse) in Er. by rewrite reverse_involutive in Er. }
    destruct (factory_func s) as [o s']. simpl.
    rewrite update_peak_active, update_peak_inactive, update_peak_total. simpl.
    rewrite Hnil, length_app. simpl. split; [lia|]. split; [done|done].
Qed.

Lemma ObjectPool_get_many_counts (n : nat) (p : ObjectPool T) (s : St) :
  let r := ObjectPool_get_many factory_func n p s in
  length r.1.1 = n ∧
  length (active_objects r.1.2) = length (active_objects p) + n ∧
  length (inactive_objects r.1.2) = length (inactive_objects p) - n ∧
  total_created r.1.2 = (total_created p + Z.of_nat (n - length (inactive_objects p)))%Z.
Proof.
  revert p s. induction n as [|n IH]; intros p s; simpl.
  - split; [done|]. split; [lia|]. split; [lia|]. lia.
  - destruct (ObjectPool_get_counts p s) as (A & I & C).
    destruct (IH (ObjectPool_get factory_func p s).1.2 (ObjectPool_get factory_func p s).2)
      as (L1 & A1 & I1 & C1).
    split; [by rewrite L1|]. rewrite A1, I1, C1, A, I, C.
    split; [lia|]. split; [lia|]. case_decide; lia.
Qed.

(** X17. Pool growth: [m] calls of [get] without a release, on a pool just
    constructed with a non-negative initial size [n], hand out [m]
    objects, leave [m] objects active and [n - m] (none when [m > n])
    inactive, and bring [total_created] to the larger of [n] and [m]. *)
Theorem pool_growth (initial_size : Z) (m : nat) (s : St) :
  (0 ≤ initial_size)%Z →
  let p0 := ObjectPool_init factory_func initial_size s in
  let r := ObjectPool_get_many factory_func m p0.1 p0.2 in
  length r.1.1 = m ∧
  length (active_objects r.1.2) = m ∧
  length (inactive_objects r.1.2) = Z.to_nat initial_size - m ∧
  total_created r.1.2 = Z.max initial_size (Z.of_nat m).
Proof.
  intros Hn p0 r. subst r.
  destruct (ObjectPool_get_many_counts m p0.1 p0.2) as (L & A & I & C).
  assert (H0 : active_objects p0.1 = [] ∧ length (inactive_objects p0.1) = Z.to_nat initial_size
               ∧ total_created p0.1 = initial_size).
  { subst p0. unfold ObjectPool_init.
    pose proof (init_inactive_length factory_func (Z.to_nat initial_size) s) as Hl.
    destruct (Nat.iter _ _ _) as [l s1]. done. }
  destruct H0 as (Ha & Hi & Ht). rewrite Ha in A. rewrite Hi in I, C. rewrite Ht in C.
  split; [done|]. split; [done|]. split; [done|]. rewrite C. lia.
Qed.

(** X18. Reuse is last-in, first-out: after two distinct active objects
    are released, first [a] and then [b], the next [get] returns [b] and
    the one after it returns [a]; the factory is not called, so
    [total_created] and the owner's state stay as the releases left them. *)
Theorem pool_reuse_is_lifo (a b : T) (p : ObjectPool T) (s : St) :
  a ∈ active_objects p → b ∈ active_objects p → a ≠ b →
  let r1 := ObjectPool_release reset_func a p s in
  let r2 := ObjectPool_release reset_func b r1.1 r1.2 in
  let g1 := ObjectPool_get factory_func r2.1 r2.2 in
  let g2 := ObjectPool_get factory_func g1.1.2 g1.2 in
  g1.1.1 = b ∧ g2.1.1 = a ∧
  g2.2 = reset_func b (reset_func a s) ∧
  total_created g2.1.2 = total_created p.
Proof.
  intros Ha Hb Hab r1 r2 g1 g2.
  assert (E1 : r1 = (mkObjectPool (list_remove a (active_objects p)) (inactive_objects p ++ [a])
                       (peak_active_count p) (total_created p), reset_func a s)).
  { subst r1. unfold ObjectPool_release, list_has. by rewrite bool_decide_eq_true_2. }
  assert (E2 : r2 = (mkObjectPool (list_remove b (list_remove a (active_objects p)))
                       ((inactive_objects p ++ [a]) ++ [b])
                       (peak_active_count p) (total_created p),
                     reset_func b (reset_func a s))).
  { subst r2. rewrite E1. unfold ObjectPool_release, list_has. simpl.
    rewrite bool_decide_eq_true_2; [done|]. by apply list_remove_other. }
  assert (E3 : g1.1.1 = b ∧ g1.2 = reset_func b (reset_func a s) ∧
               inactive_objects g1.1.2 = inactive_objects p ++ [a] ∧
               total_created g1.1.2 = total_created p).
  { subst g1. rewrite E2. unfold ObjectPool_get. simpl. rewrite list_pop_snoc. simpl.
    by rewrite update_peak_inactive, update_peak_total. }
  destruct E3 as (G1 & G2 & G3 & G4). split; [done|].
  subst g2. unfold ObjectPool_get. rewrite G3, list_pop_snoc. simpl.
  by rewrite update_peak_total.
Qed.

(** X19. A double release is harmless: when no object is active twice,
    releasing the same object a second time changes neither the pool nor
    the owner's state (the reset function is not called again). *)
Theorem double_release_is_noop (obj : T) (p : ObjectPool T) (s : St) :
  NoDup (active_objects p) →
  let r := ObjectPool_release reset_func obj p s in
  ObjectPool_release reset_func obj r.1 r.2 = r.
Proof.
  intros Hnd r. subst r. destruct (decide (obj ∈ active_objects p)) as [Hin|Hin].
  - assert (E : ObjectPool_release reset_func obj p s
                = (mkObjectPool (list_remove obj (active_objects p)) (inactive_objects p ++ [obj])
                     (peak_active_count p) (total_created p), reset_func obj s)).
    { unfold ObjectPool_release, list_has. by rewrite bool_decide_eq_true_2. }
    rewrite E. unfold ObjectPool_release, list_has. simpl.
    rewrite bool_decide_eq_false_2; [done|]. by apply list_remove_NoDup.
  - assert (E : ObjectPool_release reset_func obj p s = (p, s)).
    { unfold ObjectPool_release, list_has. by rewrite bool_decide_eq_false_2. }
    rewrite E. exact E.
Qed.

Lemma ObjectPool_release_all_fold (l : list T) (p : ObjectPool T) (s : St) :
  active_objects p = l →
  fold_left (λ ps obj, ObjectPool_release reset_func obj ps.1 ps.2) l (p, s)
  = (mkObjectPool [] (inactive_objects p ++ l) (peak_active_count p) (total_created p),
     fold_left (λ s obj, reset_func obj s) l s).
Proof.
  revert p s. induction l as [|o l IH]; intros p s Hl; simpl.
  - rewrite app_nil_r. destruct p; simpl in *. by subst.
  - unfold ObjectPool_release at 2, list_has. rewrite Hl.
    rewrite bool_decide_eq_true_2 by (apply elem_of_cons; by left). simpl.
    rewrite decide_True by done. rewrite IH by done. simpl. by rewrite <- app_assoc.
Qed.

(** X20. [release_all] returns everything: afterwards no object is active,
    the objects that were active follow the old inactive ones in their
    order, the reset function has been applied to each of them in that
    order, and the two counters are unchanged. *)
Theorem release_all_returns_everything (p : ObjectPool T) (s : St) :
  ObjectPool_release_all reset_func p s
  = (mkObjectPool [] (inactive_objects p ++ active_objects p)
       (peak_active_count p) (total_created p),
     fold_left (λ s obj, reset_func obj s) (active_objects p) s).
Proof. unfold ObjectPool_release_all. by apply ObjectPool_release_all_fold. Qed.

Lemma update_peak_range (p : ObjectPool T) :
  pool_conserved p → (peak_active_count p ≤ total_created p)%Z →
  (Z.of_nat (length (active_objects (update_peak p))) ≤ peak_active_count (update_peak p)
   ≤ total_created (update_peak p))%Z.
Proof.
  unfold pool_conserved, update_peak. intros Hc Hp.
  destruct (Z.ltb_spec (peak_active_count p) (Z.of_nat (length (active_objects p)))); simpl; lia.
Qed.

(** X21. The peak is a peak: in every state of a pool constructed with a
    non-negative initial size and used through [get], [release] and
    [release_all], the number of active objects is at most
    [peak_active_count], which is at most [total_created]. *)
Theorem peak_bounds (initial_size : Z) (p : ObjectPool T) (s : St) :
  (0 ≤ initial_size)%Z →
  pool_reachable factory_func reset_func initial_size p s →
  (Z.of_nat (length (active_objects p)) ≤ peak_active_count p ≤ total_created p)%Z.
Proof.
  intros Hn Hreach.
  enough (pool_conserved p ∧
          (Z.of_nat (length (active_objects p)) ≤ peak_active_count p ≤ total_created p)%Z)
    as [_ ?] by done.
  induction Hreach as [s|p s _ [Hc Hb]|obj p s _ [Hc Hb]|p s _ [Hc Hb]|p s s' _ IH].
  - split; [by apply ObjectPool_init_conserved|].
    unfold ObjectPool_init. destruct (Nat.iter _ _ _) as [l s1]. simpl. lia.
  - split; [by apply ObjectPool_get_conserved|].
    pose proof (ObjectPool_get_conserved factory_func p s Hc) as Hc'. revert Hc'.
    unfold ObjectPool_get. destruct (list_pop (inactive_objects p)) as [[o r]|] eqn:E.
    + simpl. intros _. apply list_pop_Some in E. apply update_peak_range; [|simpl; lia].
      unfold pool_conserved in *. simpl. rewrite E in Hc. rewrite !length_app in *. simpl in *. lia.
    + destruct (factory_func s) as [o s']. simpl. intros _. apply update_peak_range; [|simpl; lia].
      unfold pool_conserved in *. simpl. rewrite length_app. simpl. lia.
  - split; [by apply ObjectPool_release_conserved|].
    unfold ObjectPool_release, list_has. case_bool_decide as Hin; [|done]. simpl.
    pose proof (list_remove_length _ _ Hin). lia.
  - split; [by apply ObjectPool_release_all_conserved|].
    unfold ObjectPool_release_all. rewrite ObjectPool_release_all_fold by done. simpl. lia.
  - exact IH.
Qed.
End MorePoolFacts.

Lemma pool_growth_witness :
  total_created
    (ObjectPool_get_many counting_factory 3
       (ObjectPool_init counting_factory 2 0%nat).1
       (ObjectPool_init counting_factory 2 0%nat).2).1.2 = Z.max 2 (Z.of_nat 3).
Proof. apply (pool_growth counting_factory 2 3 0%nat). lia. Defined.

Lemma pool_reuse_is_lifo_witness :
  (ObjectPool_get counting_factory
     (ObjectPool_release no_reset 8%nat
        (ObjectPool_release no_reset 7%nat (mkObjectPool [7; 8]%nat [] 2 2) 9%nat).1
        (ObjectPool_release no_reset 7%nat (mkObjectPool [7; 8]%nat [] 2 2) 9%nat).2).1
     (ObjectPool_release no_reset 8%nat
        (ObjectPool_release no_reset 7%nat (mkObjectPool [7; 8]%nat [] 2 2) 9%nat).1
        (ObjectPool_release no_reset 7%nat (mkObjectPool [7; 8]%nat [] 2 2) 9%nat).2).2).1.1
  = 8%nat.
Proof.
  apply (pool_reuse_is_lifo counting_factory no_reset 7%nat 8%nat
           (mkObjectPool [7; 8]%nat [] 2 2) 9%nat).
  - apply (bool_decide_unpack _). vm_compute. exact I.
  - apply (bool_decide_unpack _). vm_compute. exact I.
  - discriminate.
Defined.

Lemma double_release_is_noop_witness :
  ObjectPool_release no_reset 7%nat
    (ObjectPool_release no_reset 7%nat (mkObjectPool [7; 8]%nat [] 2 2) 9%nat).1
    (ObjectPool_release no_reset 7%nat (mkObjectPool [7; 8]%nat [] 2 2) 9%nat).2
  = ObjectPool_release no_reset 7%nat (mkObjectPool [7; 8]%nat [] 2 2) 9%nat.
Proof.
  apply (double_release_is_noop no_reset 7%nat (mkObjectPool [7; 8]%nat [] 2 2) 9%nat).
  apply (bool_decide_unpack _). vm_compute. exact I.
Defined.

Lemma peak_bounds_witness :
  (Z.of_nat (length (active_objects
     (ObjectPool_get counting_factory
        (ObjectPool_init counting_factory 2 0%nat).1
        (ObjectPool_init counting_factory 2 0%nat).2).1.2))
   ≤ peak_active_count
       (ObjectPool_get counting_factory
          (ObjectPool_init counting_factory 2 0%nat).1
          (ObjectPool_init counting_factory 2 0%nat).2).1.2
   ≤ total_created
       (ObjectPool_get counting_factory
          (ObjectPool_init counting_factory 2 0%nat).1
          (ObjectPool_init counting_factory 2 0%nat).2).1.2)%Z.
Proof.
  apply (peak_bounds counting_factory no_reset 2 _
           (ObjectPool_get counting_factory
              (ObjectPool_init counting_factory 2 0%nat).1
              (ObjectPool_init counting_factory 2 0%nat).2).2).
  - lia.
  - apply reach_get, reach_init.
Defined.

(** * Further properties: the projectile pool *)

Lemma reset_projectile_Some (projectile : ref) (w w1 : World) :
  ProjectilePool_reset_projectile projectile w = Some w1 →
  active (ents w1 projectile) = false ∧
  (∀ t, Entity_get_component "transform" projectile w = Some t →
        attr_position (comps w1 t) = Some (- (1000), - (1000))%Q) ∧
  (∀ ph, Entity_get_component "physics" projectile w = Some ph →
         attr_velocity (comps w1 ph) = Some (0, 0)%Q) ∧
  manager w1 = manager w.
Proof.
  unfold ProjectilePool_reset_projectile, Entity_get_component. simpl.
  destruct (dict_get (components (ents w projectile)) "transform") as [t|] eqn:Et;
  destruct (dict_get (components (ents w projectile)) "physics") as [ph|] eqn:Eph; simpl.
  - destruct (attr_position (comps w t)) as [p|] eqn:Ep; [|done]. simpl. rewrite Eph. simpl.
    destruct (attr_velocity (upd (comps w) t _ ph)) as [v|] eqn:Ev; [|done]. simpl.
    intros [= <-]. simpl. split; [by rewrite upd_eq|].
    assert (Hne : ph ≠ t).
    { intros ->. rewrite upd_eq in Ev. simpl in Ev. done. }
    split; [|split; [|done]].
    + intros t' [= <-]. rewrite upd_ne by done. by rewrite upd_eq.
    + intros ph' [= <-]. by rewrite upd_eq.
  - destruct (attr_position (comps w t)) as [p|] eqn:Ep; [|done]. simpl. rewrite Eph. simpl.
    intros [= <-]. simpl. split; [by rewrite upd_eq|]. split; [|split; [by intros ? [=]|done]].
    intros t' [= <-]. by rewrite upd_eq.
  - rewrite Eph. simpl. destruct (attr_velocity (comps w ph)) as [v|] eqn:Ev; simpl; [|by intros [=]].
    intros [= <-]. simpl. split; [by rewrite upd_eq|]. split; [by intros ? [=]|]. split; [|done].
    intros ph' [= <-]. by rewrite upd_eq.
  - rewrite Eph. simpl. intros [= <-]. simpl. split; [by rewrite upd_eq|].
    split; [by intros ? [=]|]. split; [by intros ? [=]|done].
Qed.

(** X22. Returning a projectile: when the projectile has an ink component,
    its colour (or the fallback ["dark_blue"] for an unknown colour) names
    a pool that has it among its active objects, and the reset does not
    raise, [release_projectile] moves it to that pool's inactive list and
    leaves the other pools alone; the projectile ends inactive, parked at
    (-1000, -1000) with zero velocity. *)
Theorem release_projectile_returns (projectile : ref) (pp : ProjectilePool) (w w1 : World)
    (ink : cref) (colour : string) (pool : ObjectPool ref) :
  Entity_get_component "ink_slime" projectile w = Some ink →
  attr_ink_color (comps w ink) = Some colour →
  dict_get (pools pp) (if dict_has (pools pp) colour then colour else "dark_blue") = Some pool →
  projectile ∈ active_objects pool →
  ProjectilePool_reset_projectile projectile w = Some w1 →
  ProjectilePool_release_projectile projectile pp w
  = Some (mkProjectilePool
            (dict_set (pools pp) (if dict_has (pools pp) colour then colour else "dark_blue")
               (mkObjectPool (list_remove projectile (active_objects pool))
                  (inactive_objects pool ++ [projectile])
                  (peak_active_count pool) (total_created pool))), w1) ∧
  active (ents w1 projectile) = false ∧
  (∀ t, Entity_get_component "transform" projectile w = Some t →
        attr_position (comps w1 t) = Some (- (1000), - (1000))%Q) ∧
  (∀ ph, Entity_get_component "physics" projectile w = Some ph →
         attr_velocity (comps w1 ph) = Some (0, 0)%Q).
Proof.
  intros Hink Hcol Hpool Hin Hreset.
  destruct (reset_projectile_Some _ _ _ Hreset) as (Ha & Ht & Hph & _).
  split; [|done].
  unfold ProjectilePool_release_projectile. rewrite Hink, Hcol. simpl. rewrite Hpool. simpl.
  unfold ObjectPool_release, list_has. rewrite bool_decide_eq_true_2 by done. simpl.
  by rewrite Hreset.
Qed.

Lemma release_projectile_returns_witness :
  active (ents (default flying_world (ProjectilePool_reset_projectile O flying_world)) O)
  = false.
Proof.
  apply (release_projectile_returns O red_pool flying_world
           (default flying_world (ProjectilePool_reset_projectile O flying_world))
           2%nat "red" (mkObjectPool [0%nat] [] 1 1)).
  - reflexivity.
  - reflexivity.
  - reflexivity.
  - apply list_elem_of_singleton. reflexivity.
  - vm_compute. reflexivity.
Defined.

(** * Further properties: the update pass *)

Section MoreUpdateFacts.
Variable behaviour : cref → Q → World → list Call.

Lemma update_pass_log dt (l : list ref) (st : World * list ref) :
  ∃ log, (fold_left (EntityManager_update_entity behaviour dt) l st).2 = st.2 ++ log ∧
         log `sublist_of` l.
Proof.
  revert st. induction l as [|e l IH]; intros st; simpl.
  - exists []. by rewrite app_nil_r.
  - destruct (IH (EntityManager_update_entity behaviour dt st e)) as (log & -> & Hsub).
    unfold EntityManager_update_entity. simpl.
    destruct (active (ents st.1 e) && negb (marked_for_destruction (ents st.1 e))); simpl.
    + exists (e :: log). split; [by rewrite <- app_assoc|]. by apply sublist_skip.
    + exists log. split; [done|]. by apply sublist_cons.
Qed.

(** X23. One pass, one update each: the entities whose [update] the pass
    calls form a sub-sequence of the snapshot, so each is an entity of the
    snapshot, they are visited in table order, and with a duplicate-free
    snapshot none is updated twice. *)
Theorem update_pass_in_order (dt : Q) (snapshot : list ref) (w : World) :
  (EntityManager_update_pass behaviour dt snapshot w).2 `sublist_of` snapshot ∧
  (NoDup snapshot → NoDup (EntityManager_update_pass behaviour dt snapshot w).2).
Proof.
  unfold EntityManager_update_pass.
  destruct (update_pass_log dt snapshot (w, [])) as (log & -> & Hsub). simpl.
  split; [done|]. intros Hnd. by eapply sublist_NoDup.
Qed.

(** X24. Disabled components are not updated: [update(dt)] of an entity
    all of whose components are disabled changes nothing, whatever the
    components would do. *)
Theorem disabled_components_skipped (dt : Q) (e : ref) (w : World) :
  (∀ c, c ∈ dict_values (components (ents w e)) → enabled (comps w c) = false) →
  Entity_update behaviour dt e w = w.
Proof.
  intros Hoff. unfold Entity_update. destruct (negb (active (ents w e))); [done|].
  revert Hoff. generalize (dict_values (components (ents w e))) as l. intros l.
  induction l as [|c l IH]; intros Hoff; simpl; [done|].
  rewrite Hoff by (apply elem_of_cons; by left).
  apply IH. intros c' ?. apply Hoff, elem_of_cons. by right.
Qed.
End MoreUpdateFacts.

Lemma disabled_components_skipped_witness :
  Entity_update self_destruct 1 O (Component_set_enabled false O solo)
  = Component_set_enabled false O solo.
Proof.
  apply (disabled_components_skipped self_destruct 1 O (Component_set_enabled false O solo)).
  intros c Hc. simpl in Hc. apply list_elem_of_singleton in Hc. by subst c.
Defined.
